(** * kvraft/server.go: the key/value server on top of the replicated log

    A shallow embedding of the server-side state machine of
    [src/kvraft/server.go]: the dedup tables, the store, the pending
    registry, the applier loop body and the two RPC handlers.

    Conventions.
    - Go's [int], [int32] and [int64] values are [Z]; the code only compares
      and copies them, so no wrap-around arithmetic is involved.
    - Go maps are [gmap]s; reading an absent key yields Go's zero value,
      written [default "" (m !! k)].
    - A channel is a heap cell holding its buffer; a [chan] reference is a
      [positive], and a possibly-nil reference is an [option chan].
    - A goroutine that would block forever or panic is an [outcome] other
      than [Done]. *)

From stdpp Require Import gmap strings list fin_maps.

Open Scope string_scope.
Open Scope Z_scope.

(** ** Constants of common.go *)

Abbreviation Err := string (only parsing).

(** Modelled from the spec: the [Err] constants of common.go (section 6.2,
    a closed set of distinct values of the string type [Err]). *)
Definition OK : Err := "OK".
Definition ErrNoKey : Err := "ErrNoKey".
Definition ErrWrongLeader : Err := "ErrWrongLeader".
Definition ErrLostLeadership : Err := "ErrLostLeadership".
Definition ErrTimeOut : Err := "ErrTimeOut".
Definition ErrStaleRequest : Err := "ErrStaleRequest".

(** Modelled from the spec: the operation names of common.go (section 3,
    kind is one of Get, Put, Append); [Op.Op] is a Go string. *)
Definition GetOp : string := "Get".
Definition PutOp : string := "Put".
Definition AppendOp : string := "Append".

(** ** Data model *)

Abbreviation chan := positive (only parsing).

(** [type Op struct]. The field [Op] is called [Kind] here, since a record
    and its field cannot share a name. [ToClientCh = None] is the nil
    channel. *)
Record Op := mkOp {
  Key : string;
  Value : string;
  Kind : string;
  ToClientCh : option chan;
  From : Z;
  ClientId : Z;
  SeqNumber : Z
}.

(** [type RequestId struct] *)
Record RequestId := mkRequestId {
  reqClientId : Z;
  reqSeqNumber : Z
}.

#[global] Instance RequestId_eq_dec : EqDecision RequestId.
Proof. solve_decision. Defined.

(** [func (op *Op) RequestId() RequestId] *)
Definition Op_RequestId (op : Op) : RequestId :=
  {| reqClientId := ClientId op; reqSeqNumber := SeqNumber op |}.

(** [type RequestInfo struct] *)
Record RequestInfo := mkRequestInfo {
  requestId : RequestId;
  failCh : chan
}.

(** [type KVServer struct], without the locks, the log handle and the
    kill machinery. *)
Record KVServer := mkKVServer {
  me : Z;
  state : gmap string string;
  dedupTable : gmap Z Z;
  valueTable : gmap Z string;
  pendingRequests : gmap Z RequestInfo
}.

Definition set_state (kv : KVServer) (s : gmap string string) : KVServer :=
  {| me := me kv; state := s; dedupTable := dedupTable kv;
     valueTable := valueTable kv; pendingRequests := pendingRequests kv |}.

Definition set_tables (kv : KVServer) (d : gmap Z Z) (v : gmap Z string) : KVServer :=
  {| me := me kv; state := state kv; dedupTable := d;
     valueTable := v; pendingRequests := pendingRequests kv |}.

Definition set_pendingRequests (kv : KVServer) (p : gmap Z RequestInfo) : KVServer :=
  {| me := me kv; state := state kv; dedupTable := dedupTable kv;
     valueTable := valueTable kv; pendingRequests := p |}.

(** The maps [StartKVServer] creates. *)
Definition StartKVServer (me0 : Z) : KVServer :=
  {| me := me0; state := ∅; dedupTable := ∅; valueTable := ∅;
     pendingRequests := ∅ |}.

(** ** The dedup table: read path *)

(** [ShouldStartCommand]. [err] is the current content of [*err]; [value]
    is [None] when the pointer is nil and the current content of [*value]
    otherwise. The result carries the contents after the call. *)
Definition ShouldStartCommand (kv : KVServer) (clientId newSeq : Z)
    (err : Err) (value : option string) : bool * Err * option string :=
  match dedupTable kv !! clientId with
  | Some seq =>
      if decide (newSeq = seq) then
        (false, OK,
         match value with
         | Some _ => Some (default "" (valueTable kv !! clientId))
         | None => None
         end)
      else if decide (newSeq < seq) then
        (false, ErrStaleRequest, value)
      else if decide (newSeq > seq) then
        (true, err, value)
      else (true, err, value)
  | None => (true, err, value)
  end.

(** ** The applier: write path *)

(** The test [ok && op.SeqNumber == seq] at the head of [ApplyOperation]. *)
Definition already_applied (kv : KVServer) (op : Op) : bool :=
  match dedupTable kv !! ClientId op with
  | Some seq => bool_decide (SeqNumber op = seq)
  | None => false
  end.

(** The store update of [ApplyOperation] (the [if op.Op == PutOp] block):
    the new store and the value of [result]. *)
Definition apply_to_store (st : gmap string string) (op : Op)
    : gmap string string * string :=
  if decide (Kind op = PutOp) then
    (<[Key op := Value op]> st, "")
  else
    let value := default "" (st !! Key op) in
    if decide (Kind op = AppendOp) then
      (<[Key op := value +:+ Value op]> st, "")
    else if decide (Kind op = GetOp) then
      (st, value)
    else (st, "").

(** [ApplyOperation]: the server after the call and the returned string. *)
Definition ApplyOperation (kv : KVServer) (op : Op) : KVServer * string :=
  if already_applied kv op then
    (kv, default "" (valueTable kv !! ClientId op))
  else
    let '(st, result) := apply_to_store (state kv) op in
    (set_tables (set_state kv st)
       (<[ClientId op := SeqNumber op]> (dedupTable kv))
       (<[ClientId op := result]> (valueTable kv)),
     result).

(** ** Channels and blocking *)

(** What a piece of straight-line goroutine code comes to: it runs to its
    end, it stops at a channel send that cannot proceed, or it panics. *)
Inductive outcome (A : Type) : Type :=
  | Done (a : A)
  | Blocked
  | Panicked.
Arguments Done {A} a.
Arguments Blocked {A}.
Arguments Panicked {A}.

#[global] Instance outcome_ret : MRet outcome := λ A a, Done a.
#[global] Instance outcome_bind : MBind outcome := λ A B f m,
  match m with
  | Done a => f a
  | Blocked => Blocked
  | Panicked => Panicked
  end.

(** Every channel of this file is made with [make(chan T, 1)]. *)
Definition chan_cap : nat := 1.

(** [make(chan T, 1)]: a reference no live channel has, with an empty
    buffer. *)
Definition make_chan {A : Type} (bufs : gmap positive (list A))
    : positive * gmap positive (list A) :=
  let c := fresh (dom bufs) in (c, <[c := []]> bufs).

(** [c <- v]: the value is queued when the buffer has room; otherwise the
    sender waits. A reference that names no channel behaves as nil does. *)
Definition chan_send {A : Type} (bufs : gmap positive (list A)) (c : positive) (v : A)
    : outcome (gmap positive (list A)) :=
  match bufs !! c with
  | Some buf =>
      if decide (length buf < chan_cap)%nat
      then Done (<[c := (buf ++ [v])%list]> bufs)
      else Blocked
  | None => Blocked
  end.

(** [<-c] as a [select] case: ready when the buffer is not empty. *)
Definition chan_recv {A : Type} (bufs : gmap positive (list A)) (c : positive)
    : option (A * gmap positive (list A)) :=
  match bufs !! c with
  | Some (v :: rest) => Some (v, <[c := rest]> bufs)
  | _ => None
  end.

(** The channels of the process: the [chan bool] cells (failure channels)
    and the [chan string] cells (completion channels). *)
Record Chans := mkChans {
  failBufs : gmap positive (list bool);
  clientBufs : gmap positive (list string)
}.

Definition set_failBufs (h : Chans) (b : gmap positive (list bool)) : Chans :=
  {| failBufs := b; clientBufs := clientBufs h |}.

Definition set_clientBufs (h : Chans) (b : gmap positive (list string)) : Chans :=
  {| failBufs := failBufs h; clientBufs := b |}.

(** ** The pending registry *)

(** [RecordRequestAtIndex] *)
Definition RecordRequestAtIndex (kv : KVServer) (index : Z) (id : RequestId)
    (fch : chan) : KVServer :=
  set_pendingRequests kv
    (<[index := {| requestId := id; failCh := fch |}]> (pendingRequests kv)).

(** Modelled from the spec: [raft.ApplyMsg] (section 6.1), the fields the
    server reads. [Command] is an [interface{}]; [None] stands for a value
    that is not an [Op], on which the assertion [cmd.Command.(Op)] panics. *)
Record ApplyMsg := mkApplyMsg {
  TermChanged : bool;
  CommandValid : bool;
  Command : option Op;
  CommandIndex : Z
}.

(** The body of the [range] loop of [FailAllPendingRequests], over the
    entries in the order the iteration produces them. *)
Fixpoint fail_entries (entries : list (Z * RequestInfo)) (kv : KVServer) (h : Chans)
    : outcome (KVServer * Chans) :=
  match entries with
  | [] => Done (kv, h)
  | (k, v) :: rest =>
      bufs ← chan_send (failBufs h) (failCh v) true;
      fail_entries rest
        (set_pendingRequests kv (delete k (pendingRequests kv)))
        (set_failBufs h bufs)
  end.

(** The registry after the [delete]s of that loop. *)
Definition delete_entries (entries : list (Z * RequestInfo))
    (m : gmap Z RequestInfo) : gmap Z RequestInfo :=
  foldl (λ m e, delete e.1 m) m entries.

(** [FailAllPendingRequests]. Go leaves the iteration order of a map
    unspecified: [order] is the order of this run, an enumeration of the
    registry (the loop deletes only the entry it is at, so every entry is
    produced once). *)
Definition FailAllPendingRequests_in (order : list (Z * RequestInfo))
    (kv : KVServer) (h : Chans) : outcome (KVServer * Chans) :=
  fail_entries order kv h.

Definition FailAllPendingRequests (kv : KVServer) (h : Chans)
    : outcome (KVServer * Chans) :=
  FailAllPendingRequests_in (map_to_list (pendingRequests kv)) kv h.

(** [FailConflictPendingRequests] *)
Definition FailConflictPendingRequests (kv : KVServer) (h : Chans) (cmd : ApplyMsg)
    : outcome (KVServer * Chans) :=
  match Command cmd with
  | None => Panicked
  | Some op =>
      h' ← match pendingRequests kv !! CommandIndex cmd with
           | Some info =>
               if decide (requestId info ≠ Op_RequestId op) then
                 bufs ← chan_send (failBufs h) (failCh info) true;
                 Done (set_failBufs h bufs)
               else Done h
           | None => Done h
           end;
      Done (set_pendingRequests kv
              (delete (CommandIndex cmd) (pendingRequests kv)), h')
  end.

(** ** The applier *)

(** The notification at the end of the [applyCh] case:
    [if op.From == kv.me && op.ToClientCh != nil { op.ToClientCh <- result }]. *)
Definition notify_completion (kv : KVServer) (h : Chans) (op : Op) (result : string)
    : outcome Chans :=
  if decide (From op = me kv) then
    match ToClientCh op with
    | Some c =>
        bufs ← chan_send (clientBufs h) c result;
        Done (set_clientBufs h bufs)
    | None => Done h
    end
  else Done h.

(** What one [select] of [OperationExecutor] receives. *)
Inductive executor_event :=
  | FromApplyCh (cmd : ApplyMsg)
  | FromKillCh (killed : bool).

(** One iteration of the loop of [OperationExecutor] on a received
    message; [order] is the map iteration order of this iteration. *)
Definition OperationExecutor_step (order : list (Z * RequestInfo))
    (kv : KVServer) (h : Chans) (ev : executor_event) : outcome (KVServer * Chans) :=
  match ev with
  | FromApplyCh cmd =>
      if TermChanged cmd then FailAllPendingRequests_in order kv h
      else if negb (CommandValid cmd) then Done (kv, h)
      else
        '(kv1, h1) ← FailConflictPendingRequests kv h cmd;
        match Command cmd with
        | None => Panicked
        | Some op =>
            let '(kv2, result) := ApplyOperation kv1 op in
            h2 ← notify_completion kv2 h1 op result;
            Done (kv2, h2)
        end
  | FromKillCh _ => Done (kv, h)
  end.

(** The applier on a run of committed commands: the server after the run
    and the strings [ApplyOperation] returned, in order. *)
Fixpoint apply_all (kv : KVServer) (ops : list Op) : KVServer * list string :=
  match ops with
  | [] => (kv, [])
  | op :: rest =>
      let '(kv1, r) := ApplyOperation kv op in
      let '(kv2, rs) := apply_all kv1 rest in
      (kv2, r :: rs)
  end.

(** ** The RPC handlers *)

(** Modelled from the spec: the argument and reply structs of common.go
    (section 6.2): [Get(Key, ClientId, SeqNumber) → (Err, Value)] and
    [PutAppend(Key, Value, Op, ClientId, SeqNumber) → (Err)]. *)
Record GetArgs := mkGetArgs {
  gaKey : string;
  gaClientId : Z;
  gaSeqNumber : Z
}.

Record GetReply := mkGetReply {
  grErr : Err;
  grValue : string
}.

Record PutAppendArgs := mkPutAppendArgs {
  paKey : string;
  paValue : string;
  paOp : string;
  paClientId : Z;
  paSeqNumber : Z
}.

Record PutAppendReply := mkPutAppendReply {
  prErr : Err
}.

(** The log layer's [Start]: what it answers, [(index, term, isLeader)], to
    a submitted command. It belongs to the raft package; a handler takes it
    as given. *)
Abbreviation StartFn := (Op → Z * Z * bool) (only parsing).

(** A handler that has registered itself and sits in its [select]. *)
Record Waiter := mkWaiter {
  wIndex : Z;
  wFailCh : chan;
  wClientCh : chan
}.

(** The command [Get] hands to [Start]. *)
Definition Get_command (kv : KVServer) (args : GetArgs) (clientCh : chan) : Op :=
  {| Key := gaKey args; Value := ""; Kind := GetOp;
     ToClientCh := Some clientCh; From := me kv;
     ClientId := gaClientId args; SeqNumber := gaSeqNumber args |}.

(** The command [PutAppend] hands to [Start]. *)
Definition PutAppend_command (kv : KVServer) (args : PutAppendArgs) (clientCh : chan) : Op :=
  {| Key := paKey args; Value := paValue args; Kind := paOp args;
     ToClientCh := Some clientCh; From := me kv;
     ClientId := paClientId args; SeqNumber := paSeqNumber args |}.

(** [Get] and [PutAppend] run in their own goroutines, next to the applier
    and to each other. Each is given in the pieces between which another
    goroutine can run: the early check (under [rwLock]), the two [make]s
    with [Start], the registration (under [mu]) and the [select]. *)

(** [Get], its first statement: the early-dedup check. The result is
    whether the handler goes on, and the reply so far. *)
Definition Get_check (kv : KVServer) (args : GetArgs) (reply : GetReply)
    : bool * GetReply :=
  let '(proceed, err, value) :=
    ShouldStartCommand kv (gaClientId args) (gaSeqNumber args)
      (grErr reply) (Some (grValue reply)) in
  (proceed, {| grErr := err; grValue := default (grValue reply) value |}).

(** [Get] after a passed check, up to the answer of [Start]: the two
    [make]s and [Start]. Of the server only [me] is read. The result is the
    channels, the reply so far, and the waiter when [Start] said leader
    ([None] when the handler returns ErrWrongLeader). Nothing is registered
    yet. *)
Definition Get_start (start : StartFn) (kv : KVServer) (h : Chans)
    (args : GetArgs) (reply : GetReply) : Chans * GetReply * option Waiter :=
  let '(clientCh, cbufs) := make_chan (clientBufs h) in
  let '(fch, fbufs) := make_chan (failBufs h) in
  let h := {| failBufs := fbufs; clientBufs := cbufs |} in
  let '(index, _, isLeader) := start (Get_command kv args clientCh) in
  if isLeader then
    (h, reply, Some {| wIndex := index; wFailCh := fch; wClientCh := clientCh |})
  else
    (h, {| grErr := ErrWrongLeader; grValue := grValue reply |}, None).

(** [Get], the call of [RecordRequestAtIndex], on the server as it is when
    the handler gets [mu]. *)
Definition Get_register (kv : KVServer) (args : GetArgs) (w : Waiter) : KVServer :=
  RecordRequestAtIndex kv (wIndex w)
    {| reqClientId := gaClientId args; reqSeqNumber := gaSeqNumber args |}
    (wFailCh w).

(** [Get] up to its [select] in the schedule where no other goroutine runs
    between its statements: check, [make]s and [Start], registration. The
    result is the server, the channels, the reply so far, and the waiter
    when the handler goes on to its [select] ([None] when it has
    returned). *)
Definition Get_submit (start : StartFn) (kv : KVServer) (h : Chans)
    (args : GetArgs) (reply : GetReply)
    : KVServer * Chans * GetReply * option Waiter :=
  let '(proceed, reply) := Get_check kv args reply in
  if negb proceed then (kv, h, reply, None)
  else
    let '(h, reply, ow) := Get_start start kv h args reply in
    (match ow with Some w => Get_register kv args w | None => kv end,
     h, reply, ow).

(** [PutAppend], its first statement: the early-dedup check, with a nil
    value pointer. *)
Definition PutAppend_check (kv : KVServer) (args : PutAppendArgs)
    (reply : PutAppendReply) : bool * PutAppendReply :=
  let '(proceed, err, _) :=
    ShouldStartCommand kv (paClientId args) (paSeqNumber args)
      (prErr reply) None in
  (proceed, {| prErr := err |}).

(** [PutAppend] after a passed check, up to the answer of [Start]. *)
Definition PutAppend_start (start : StartFn) (kv : KVServer) (h : Chans)
    (args : PutAppendArgs) (reply : PutAppendReply)
    : Chans * PutAppendReply * option Waiter :=
  let '(clientCh, cbufs) := make_chan (clientBufs h) in
  let '(fch, fbufs) := make_chan (failBufs h) in
  let h := {| failBufs := fbufs; clientBufs := cbufs |} in
  let '(index, _, isLeader) := start (PutAppend_command kv args clientCh) in
  if isLeader then
    (h, reply, Some {| wIndex := index; wFailCh := fch; wClientCh := clientCh |})
  else
    (h, {| prErr := ErrWrongLeader |}, None).

(** [PutAppend], the call of [RecordRequestAtIndex]. *)
Definition PutAppend_register (kv : KVServer) (args : PutAppendArgs) (w : Waiter)
    : KVServer :=
  RecordRequestAtIndex kv (wIndex w)
    {| reqClientId := paClientId args; reqSeqNumber := paSeqNumber args |}
    (wFailCh w).

(** [PutAppend] up to its [select] in the schedule where no other goroutine
    runs between its statements. *)
Definition PutAppend_submit (start : StartFn) (kv : KVServer) (h : Chans)
    (args : PutAppendArgs) (reply : PutAppendReply)
    : KVServer * Chans * PutAppendReply * option Waiter :=
  let '(proceed, reply) := PutAppend_check kv args reply in
  if negb proceed then (kv, h, reply, None)
  else
    let '(h, reply, ow) := PutAppend_start start kv h args reply in
    (match ow with Some w => PutAppend_register kv args w | None => kv end,
     h, reply, ow).

(** The case a [select] executes. *)
Inductive select_case :=
  | CaseFailCh
  | CaseClientCh
  | CaseTimeAfter.

(** The [select] of [Get], run on case [c]: [None] when that case is not
    ready ([expired] tells whether the [time.After] timer has fired), and
    otherwise the channels after the receive and the reply. *)
Definition Get_select (h : Chans) (w : Waiter) (reply : GetReply)
    (expired : bool) (c : select_case) : option (Chans * GetReply) :=
  match c with
  | CaseFailCh =>
      '(_, bufs) ← chan_recv (failBufs h) (wFailCh w);
      Some (set_failBufs h bufs,
            {| grErr := ErrLostLeadership; grValue := grValue reply |})
  | CaseClientCh =>
      '(result, bufs) ← chan_recv (clientBufs h) (wClientCh w);
      Some (set_clientBufs h bufs, {| grErr := OK; grValue := result |})
  | CaseTimeAfter =>
      if expired
      then Some (h, {| grErr := ErrTimeOut; grValue := grValue reply |})
      else None
  end.

(** The [select] of [PutAppend]. *)
Definition PutAppend_select (h : Chans) (w : Waiter) (reply : PutAppendReply)
    (expired : bool) (c : select_case) : option (Chans * PutAppendReply) :=
  match c with
  | CaseFailCh =>
      '(_, bufs) ← chan_recv (failBufs h) (wFailCh w);
      Some (set_failBufs h bufs, {| prErr := ErrLostLeadership |})
  | CaseClientCh =>
      '(_, bufs) ← chan_recv (clientBufs h) (wClientCh w);
      Some (set_clientBufs h bufs, {| prErr := OK |})
  | CaseTimeAfter =>
      if expired then Some (h, {| prErr := ErrTimeOut |}) else None
  end.

(** ** Runs of the applier and the properties stated about them *)

Definition apply_run (kv : KVServer) (ops : list Op) : KVServer :=
  (apply_all kv ops).1.

Definition apply_results (kv : KVServer) (ops : list Op) : list string :=
  (apply_all kv ops).2.

(** Section 3, SeqNumber: the sequence numbers a client's commands carry at
    commit time never decrease along the run (equal ones are retries). *)
Fixpoint seqs_nondecreasing (ops : list Op) : Prop :=
  match ops with
  | [] => True
  | op :: rest =>
      Forall (λ op', ClientId op' = ClientId op → SeqNumber op ≤ SeqNumber op') rest
      ∧ seqs_nondecreasing rest
  end.

#[global] Instance seqs_nondecreasing_dec ops : Decision (seqs_nondecreasing ops).
Proof. induction ops as [|op rest IH]; simpl; apply _. Defined.

(** The commands still to come are not older than what the dedup table
    has recorded for their clients. *)
Definition not_older_than_table (kv : KVServer) (ops : list Op) : Prop :=
  Forall (λ op, ∀ s, dedupTable kv !! ClientId op = Some s → s ≤ SeqNumber op) ops.

(** The retry-free sequence of a run: every command whose RequestId was
    committed earlier in the run is dropped. *)
Fixpoint retry_free_from (seen : list RequestId) (ops : list Op) : list Op :=
  match ops with
  | [] => []
  | op :: rest =>
      if decide (Op_RequestId op ∈ seen)
      then retry_free_from seen rest
      else op :: retry_free_from (Op_RequestId op :: seen) rest
  end.

Definition retry_free (ops : list Op) : list Op := retry_free_from [] ops.

(** How many commands of the run that carry RequestId [id] changed the
    store when [ApplyOperation] ran on them. *)
Fixpoint store_mutations (kv : KVServer) (ops : list Op) (id : RequestId) : nat :=
  match ops with
  | [] => 0%nat
  | op :: rest =>
      let kv1 := (ApplyOperation kv op).1 in
      ((if bool_decide (Op_RequestId op = id ∧ state kv1 ≠ state kv) then 1 else 0)
       + store_mutations kv1 rest id)%nat
  end.

(** How many commands of the run that carry RequestId [id] went past the
    duplicate test of [ApplyOperation]. *)
Fixpoint fresh_applications (kv : KVServer) (ops : list Op) (id : RequestId) : nat :=
  match ops with
  | [] => 0%nat
  | op :: rest =>
      ((if bool_decide (Op_RequestId op = id ∧ already_applied kv op = false)
        then 1 else 0)
       + fresh_applications (ApplyOperation kv op).1 rest id)%nat
  end.

(** The failure channels held by the registry. *)
Definition registry_chans (kv : KVServer) : list positive :=
  (failCh ∘ snd) <$> map_to_list (pendingRequests kv).

(** The failure channels of the registry are live channels with nothing
    queued, and two entries never share one: each is made by the handler
    that registers it, and the applier removes an entry as it sends on
    it. *)
Definition registry_wf (p : gmap Z RequestInfo) (bufs : gmap positive (list bool))
    : Prop :=
  map_Forall (λ i x,
      bufs !! failCh x = Some []
      ∧ map_Forall (λ j y, failCh x = failCh y → i = j) p)
    p.

Definition registry_ok (kv : KVServer) (h : Chans) : Prop :=
  registry_wf (pendingRequests kv) (failBufs h).

#[global] Instance registry_ok_dec kv h : Decision (registry_ok kv h).
Proof. unfold registry_ok, registry_wf. apply _. Defined.

(** ** The server as a transition system *)



(** ** The server with the handlers' moves taken apart *)

(** The server, the channels, and the handlers that [Start] has accepted
    and that have not registered yet, each with the RequestId it will
    register. *)
Abbreviation World := (KVServer * Chans * list (RequestId * Waiter))%type
  (only parsing).

(** What a handler adds to the accepted ones after its [Start]. *)
Definition accepted (id : RequestId) (ow : option Waiter)
    : list (RequestId * Waiter) :=
  match ow with
  | Some w => [(id, w)]
  | None => []
  end.

(** The moves between which the goroutines interleave: an iteration of the
    applier; the [make]s and [Start] of a handler; the registration of an
    accepted handler, any time later; a handler's [select]. The early check
    only reads, and decides whether the handler makes these moves at
    all. *)
Inductive handler_step : World → World → Prop :=
  | move_executor order kv h fl ev kv' h' :
      order ≡ₚ map_to_list (pendingRequests kv) →
      OperationExecutor_step order kv h ev = Done (kv', h') →
      handler_step (kv, h, fl) (kv', h', fl)
  | move_Get_start (start : StartFn) kv h fl args reply h' reply' ow :
      Get_start start kv h args reply = (h', reply', ow) →
      handler_step (kv, h, fl)
        (kv, h',
         (fl ++ accepted (mkRequestId (gaClientId args) (gaSeqNumber args)) ow)%list)
  | move_PutAppend_start (start : StartFn) kv h fl args reply h' reply' ow :
      PutAppend_start start kv h args reply = (h', reply', ow) →
      handler_step (kv, h, fl)
        (kv, h',
         (fl ++ accepted (mkRequestId (paClientId args) (paSeqNumber args)) ow)%list)
  | move_register kv h fl1 id w fl2 :
      handler_step (kv, h, (fl1 ++ (id, w) :: fl2)%list)
        (RecordRequestAtIndex kv (wIndex w) id (wFailCh w), h, (fl1 ++ fl2)%list)
  | move_Get_select kv h fl w reply expired c h' reply' :
      Get_select h w reply expired c = Some (h', reply') →
      handler_step (kv, h, fl) (kv, h', fl)
  | move_PutAppend_select kv h fl w reply expired c h' reply' :
      PutAppend_select h w reply expired c = Some (h', reply') →
      handler_step (kv, h, fl) (kv, h', fl).

(** The failure channel of an accepted handler is live and empty and is
    not in the registry, and no two accepted handlers share one. *)
Definition accepted_ok (kv : KVServer) (h : Chans) (fl : list (RequestId * Waiter))
    : Prop :=
  Forall (λ e, failBufs h !! wFailCh e.2 = Some []
               ∧ ∀ i x, pendingRequests kv !! i = Some x → failCh x ≠ wFailCh e.2) fl
  ∧ NoDup ((wFailCh ∘ snd) <$> fl).

(** ** Shutdown *)

(** The fields of [KVServer] that [Kill] and [killed] use: the flag [dead]
    (an [int32] read and written atomically, 0 in a new server) and the
    buffer of [killCh], made with [make(chan bool, 10)]. *)
Record Lifecycle := mkLifecycle {
  dead : Z;
  killCh : list bool
}.

Definition killCh_cap : nat := 10.

Definition new_Lifecycle : Lifecycle := {| dead := 0; killCh := [] |}.

(** [killed] *)
Definition killed (l : Lifecycle) : bool := bool_decide (dead l = 1).

(** [Kill], first statement: [atomic.StoreInt32(&kv.dead, 1)]. *)
Definition Kill_store (l : Lifecycle) : Lifecycle :=
  {| dead := 1; killCh := killCh l |}.

(** [Kill], last statement: [kv.killCh <- true], which waits while ten
    values are queued. *)
Definition Kill_send (l : Lifecycle) : outcome Lifecycle :=
  if decide (length (killCh l) < killCh_cap)%nat
  then Done {| dead := dead l; killCh := (killCh l ++ [true])%list |}
  else Blocked.

(** [Kill] when nothing runs in between ([rf.Kill()] belongs to the raft
    package and is taken to return). [Blocked] is the caller waiting at the
    send, the flag already stored. *)
Definition Kill (l : Lifecycle) : outcome Lifecycle := Kill_send (Kill_store l).

(** Where the goroutine of [OperationExecutor] is: at the test of its
    [for], waiting in its [select], or past the loop. *)
Inductive executor_pc := AtLoopHead | AtSelect | Exited.

#[global] Instance executor_pc_eq_dec : EqDecision executor_pc.
Proof. solve_decision. Defined.

Record Executor := mkExecutor {
  pc : executor_pc;
  ekv : KVServer;
  echans : Chans;
  life : Lifecycle
}.

(** The goroutine [StartKVServer] launches, on the new server. *)
Definition new_Executor (me0 : Z) : Executor :=
  {| pc := AtLoopHead; ekv := StartKVServer me0; echans := mkChans ∅ ∅;
     life := new_Lifecycle |}.

(** The moves that touch the loop of [OperationExecutor]: its own two (the
    test [!kv.killed()] and a receive of its [select], with the map
    iteration order of that iteration), and the two statements of a [Kill]
    running in another goroutine. *)
Inductive move :=
  | CheckKilled
  | Receive (order : list (Z * RequestInfo)) (ev : executor_event)
  | KillStores
  | KillSends.

(** One move; [None] when the move cannot be made in this state. A receive
    from [killCh] takes the head of its buffer; after either case of the
    [select] (the [break] leaves the [select] only) the goroutine is back
    at the test. [KillSends] comes after the store of the same call. *)
Definition do_move (s : Executor) (m : move) : option Executor :=
  match m with
  | CheckKilled =>
      match pc s with
      | AtLoopHead =>
          Some {| pc := if killed (life s) then Exited else AtSelect;
                  ekv := ekv s; echans := echans s; life := life s |}
      | _ => None
      end
  | Receive order ev =>
      match pc s with
      | AtSelect =>
          match ev, killCh (life s) with
          | FromKillCh b, b' :: rest =>
              if decide (b = b') then
                Some {| pc := AtLoopHead; ekv := ekv s; echans := echans s;
                        life := {| dead := dead (life s); killCh := rest |} |}
              else None
          | FromKillCh _, [] => None
          | FromApplyCh _, _ =>
              match OperationExecutor_step order (ekv s) (echans s) ev with
              | Done (kv', h') =>
                  Some {| pc := AtLoopHead; ekv := kv'; echans := h';
                          life := life s |}
              | _ => None
              end
          end
      | _ => None
      end
  | KillStores =>
      Some {| pc := pc s; ekv := ekv s; echans := echans s;
              life := Kill_store (life s) |}
  | KillSends =>
      if decide (dead (life s) = 1) then
        match Kill_send (life s) with
        | Done l => Some {| pc := pc s; ekv := ekv s; echans := echans s; life := l |}
        | _ => None
        end
      else None
  end.

(** A sequence of moves. *)
Fixpoint do_moves (s : Executor) (ms : list move) : option Executor :=
  match ms with
  | [] => Some s
  | m :: rest =>
      match do_move s m with
      | Some s' => do_moves s' rest
      | None => None
      end
  end.

Definition is_receive (m : move) : bool :=
  match m with Receive _ _ => true | _ => false end.

(** How many receives a sequence of moves has. *)
Definition receives (ms : list move) : nat :=
  length (filter (λ m, is_receive m = true) ms).

(** What holds of the flag and of [killCh] in every state of the loop. *)
Definition shutdown_inv (s : Executor) : Prop :=
  Forall (λ b, b = true) (killCh (life s))
  ∧ (length (killCh (life s)) ≤ killCh_cap)%nat
  ∧ (killCh (life s) ≠ [] → dead (life s) = 1)
  ∧ (dead (life s) = 0 ∨ dead (life s) = 1)
  ∧ (pc s = Exited → dead (life s) = 1).

(** [op] with its operation name replaced. *)
Definition with_kind (op : Op) (k : string) : Op :=
  {| Key := Key op; Value := Value op; Kind := k; ToClientCh := ToClientCh op;
     From := From op; ClientId := ClientId op; SeqNumber := SeqNumber op |}.

(** ** Sample data *)

Module Sample.
(** Client 7 on server 0: Put("a","1"), Append("a","2"), Get("a"). *)
Definition put1 : Op := mkOp "a" "1" PutOp None 0 7 1.
Definition app2 : Op := mkOp "a" "2" AppendOp None 0 7 2.
Definition get3 : Op := mkOp "a" "" GetOp None 0 7 3.
(** Client 9: Append to a key nobody wrote, Get of a key nobody wrote. *)
Definition app_b : Op := mkOp "b" "x" AppendOp None 0 9 1.
Definition get_q : Op := mkOp "q" "" GetOp (Some 1%positive) 0 9 2.
(** A retry of [put1]'s RequestId that carries another value. *)
Definition put1_again : Op := mkOp "a" "y" PutOp None 0 7 1.

(** Client 7 going back: sequence numbers 1, 2, 1. *)
Definition app_x : Op := mkOp "a" "x" AppendOp None 0 7 1.
Definition get_2 : Op := mkOp "a" "" GetOp None 0 7 2.
Definition run_1_2_1 : list Op := [app_x; get_2; app_x].

Definition kv0 : KVServer := StartKVServer 0.
Definition kv3 : KVServer := apply_run kv0 [put1; app2; get3].

Definition no_chans : Chans := mkChans ∅ ∅.

(** Two handlers wait, at indices 5 and 6; their failure channels are 1
    and 2, and completion channel 1 belongs to the Get of client 9. *)
Definition kv_pending : KVServer :=
  RecordRequestAtIndex
    (RecordRequestAtIndex kv0 5 (mkRequestId 7 1) 1%positive)
    6 (mkRequestId 9 1) 2%positive.
Definition live_chans : Chans :=
  mkChans {[ 1%positive := []; 2%positive := [] ]} {[ 1%positive := [] ]}.

Definition term_changed : ApplyMsg := mkApplyMsg true false None 0.
(** Index 5 commits a command of client 9, not the one registered there. *)
Definition commit_at_5 : ApplyMsg := mkApplyMsg false true (Some get_q) 5.
(** The same command as the log hands it over after a restart. *)
Definition replayed_at_5 : ApplyMsg :=
  mkApplyMsg false true (Some (mkOp "q" "" GetOp None 0 9 2)) 5.

Definition leader_at_5 : Op → Z * Z * bool := λ _, (5, 1, true).
Definition not_leader : Op → Z * Z * bool := λ _, (0, 1, false).
Definition get_args : GetArgs := mkGetArgs "q" 9 2.
Definition put_args : PutAppendArgs := mkPutAppendArgs "a" "1" PutOp 7 1.



End Sample.

(** * Properties *)

(** ** The handlers run without interruption *)

(** [Get_submit] written out as the straight-line code of [Get]. *)
Lemma Get_submit_eq (start : StartFn) kv h args reply :
  Get_submit start kv h args reply =
  let '(proceed, err, value) :=
    ShouldStartCommand kv (gaClientId args) (gaSeqNumber args)
      (grErr reply) (Some (grValue reply)) in
  let reply := {| grErr := err; grValue := default (grValue reply) value |} in
  if negb proceed then (kv, h, reply, None)
  else
    let '(clientCh, cbufs) := make_chan (clientBufs h) in
    let '(fch, fbufs) := make_chan (failBufs h) in
    let h := {| failBufs := fbufs; clientBufs := cbufs |} in
    let '(index, _, isLeader) := start (Get_command kv args clientCh) in
    if isLeader then
      (RecordRequestAtIndex kv index
         {| reqClientId := gaClientId args; reqSeqNumber := gaSeqNumber args |} fch,
       h, reply,
       Some {| wIndex := index; wFailCh := fch; wClientCh := clientCh |})
    else
      (kv, h, {| grErr := ErrWrongLeader; grValue := grValue reply |}, None).
Proof.
  unfold Get_submit, Get_check, Get_start, Get_register.
  destruct (ShouldStartCommand _ _ _ _ _) as [[[] err] value]; simpl; [|done].
  by destruct (start _) as [[index term] []].
Qed.

(** [PutAppend_submit] written out as the straight-line code of
    [PutAppend]. *)
Lemma PutAppend_submit_eq (start : StartFn) kv h args reply :
  PutAppend_submit start kv h args reply =
  let '(proceed, err, _) :=
    ShouldStartCommand kv (paClientId args) (paSeqNumber args)
      (prErr reply) None in
  let reply := {| prErr := err |} in
  if negb proceed then (kv, h, reply, None)
  else
    let '(clientCh, cbufs) := make_chan (clientBufs h) in
    let '(fch, fbufs) := make_chan (failBufs h) in
    let h := {| failBufs := fbufs; clientBufs := cbufs |} in
    let '(index, _, isLeader) := start (PutAppend_command kv args clientCh) in
    if isLeader then
      (RecordRequestAtIndex kv index
         {| reqClientId := paClientId args; reqSeqNumber := paSeqNumber args |} fch,
       h, reply,
       Some {| wIndex := index; wFailCh := fch; wClientCh := clientCh |})
    else
      (kv, h, {| prErr := ErrWrongLeader |}, None).
Proof.
  unfold PutAppend_submit, PutAppend_check, PutAppend_start, PutAppend_register.
  destruct (ShouldStartCommand _ _ _ _ _) as [[[] err] value]; simpl; [|done].
  by destruct (start _) as [[index term] []].
Qed.

(** ** Reading [ApplyOperation] *)

Lemma already_applied_true kv op :
  already_applied kv op = true ↔ dedupTable kv !! ClientId op = Some (SeqNumber op).
Proof.
  unfold already_applied. destruct (dedupTable kv !! ClientId op) as [s|].
  - rewrite bool_decide_eq_true. split; [intros ->; done | intros [= ->]; done].
  - split; discriminate.
Qed.

Lemma already_applied_false kv op :
  already_applied kv op = false ↔ dedupTable kv !! ClientId op ≠ Some (SeqNumber op).
Proof.
  rewrite <- already_applied_true. destruct (already_applied kv op); split; congruence.
Qed.

Lemma ApplyOperation_dup kv op :
  already_applied kv op = true →
  ApplyOperation kv op = (kv, default "" (valueTable kv !! ClientId op)).
Proof. intros H. unfold ApplyOperation. by rewrite H. Qed.

Lemma ApplyOperation_fresh kv op :
  already_applied kv op = false →
  ApplyOperation kv op =
    (set_tables (set_state kv (apply_to_store (state kv) op).1)
       (<[ClientId op := SeqNumber op]> (dedupTable kv))
       (<[ClientId op := (apply_to_store (state kv) op).2]> (valueTable kv)),
     (apply_to_store (state kv) op).2).
Proof.
  intros H. unfold ApplyOperation. rewrite H.
  by destruct (apply_to_store (state kv) op).
Qed.

(** Whichever branch runs, the client's recorded sequence number is the
    command's afterwards. *)
Lemma ApplyOperation_records kv op :
  dedupTable (ApplyOperation kv op).1 !! ClientId op = Some (SeqNumber op).
Proof.
  destruct (already_applied kv op) eqn:E.
  - rewrite ApplyOperation_dup by done. by apply already_applied_true.
  - rewrite ApplyOperation_fresh by done. simpl. apply lookup_insert_eq.
Qed.

(** Another client's rows are left alone. *)
Lemma ApplyOperation_other_client kv op c :
  c ≠ ClientId op →
  dedupTable (ApplyOperation kv op).1 !! c = dedupTable kv !! c
  ∧ valueTable (ApplyOperation kv op).1 !! c = valueTable kv !! c.
Proof.
  intros Hc. destruct (already_applied kv op) eqn:E.
  - by rewrite ApplyOperation_dup.
  - rewrite ApplyOperation_fresh by done. simpl.
    by rewrite !lookup_insert_ne.
Qed.

Lemma ApplyOperation_me kv op : me (ApplyOperation kv op).1 = me kv.
Proof.
  destruct (already_applied kv op) eqn:E.
  - by rewrite ApplyOperation_dup.
  - by rewrite ApplyOperation_fresh.
Qed.

Lemma ApplyOperation_pending kv op :
  pendingRequests (ApplyOperation kv op).1 = pendingRequests kv.
Proof.
  destruct (already_applied kv op) eqn:E.
  - by rewrite ApplyOperation_dup.
  - by rewrite ApplyOperation_fresh.
Qed.

(** ** C2: the early-dedup read path *)

(** C2. [ShouldStartCommand] on client [c] and sequence number [n]: with [c]
    absent from the dedup table it returns true and writes nothing; with
    [n] equal to the recorded number it returns false, sets the error to OK
    and, when a value pointer is given, sets the value to the cached result;
    with [n] below the recorded number it returns false with
    ErrStaleRequest; with [n] above it returns true. *)
Theorem ShouldStartCommand_cases (kv : KVServer) (c n : Z) (err : Err)
    (value : option string) :
  (dedupTable kv !! c = None →
     ShouldStartCommand kv c n err value = (true, err, value))
  ∧ (∀ s, dedupTable kv !! c = Some s →
       (n = s →
          ShouldStartCommand kv c n err value =
            (false, OK, (λ _, default "" (valueTable kv !! c)) <$> value))
       ∧ (n < s →
          ShouldStartCommand kv c n err value = (false, ErrStaleRequest, value))
       ∧ (n > s →
          ShouldStartCommand kv c n err value = (true, err, value))).
Proof.
  unfold ShouldStartCommand. split.
  - by intros ->.
  - intros s ->. repeat split; intros Hn; repeat case_decide; try lia; done.
Qed.

Lemma ShouldStartCommand_cases_witness :
  ShouldStartCommand Sample.kv3 7 3 "" (Some "") = (false, OK, Some "12")
  ∧ ShouldStartCommand Sample.kv3 7 3 "" None = (false, OK, None)
  ∧ ShouldStartCommand Sample.kv3 7 2 "" (Some "") = (false, ErrStaleRequest, Some "")
  ∧ ShouldStartCommand Sample.kv3 7 4 "" (Some "") = (true, "", Some "")
  ∧ ShouldStartCommand Sample.kv3 8 1 "" (Some "") = (true, "", Some "").
Proof.
  split; [|split; [|split; [|split]]].
  - apply (proj2 (ShouldStartCommand_cases Sample.kv3 7 3 "" (Some "")) 3);
      reflexivity.
  - apply (proj2 (ShouldStartCommand_cases Sample.kv3 7 3 "" None) 3);
      reflexivity.
  - apply (proj2 (ShouldStartCommand_cases Sample.kv3 7 2 "" (Some "")) 3);
      [reflexivity | lia].
  - apply (proj2 (ShouldStartCommand_cases Sample.kv3 7 4 "" (Some "")) 3);
      [reflexivity | lia].
  - apply (proj1 (ShouldStartCommand_cases Sample.kv3 8 1 "" (Some "")));
      reflexivity.
Defined.

(** ** C3: store semantics *)

Lemma apply_to_store_put st op :
  Kind op = PutOp → apply_to_store st op = (<[Key op := Value op]> st, "").
Proof. intros H. unfold apply_to_store. by rewrite decide_True. Qed.

Lemma apply_to_store_append st op :
  Kind op = AppendOp →
  apply_to_store st op =
    (<[Key op := default "" (st !! Key op) +:+ Value op]> st, "").
Proof.
  intros H. unfold apply_to_store.
  rewrite decide_False by (rewrite H; done). by rewrite decide_True.
Qed.

Lemma apply_to_store_get st op :
  Kind op = GetOp → apply_to_store st op = (st, default "" (st !! Key op)).
Proof.
  intros H. unfold apply_to_store.
  rewrite !decide_False by (rewrite H; done). by rewrite decide_True.
Qed.

Lemma chan_send_room {A : Type} (bufs : gmap positive (list A)) c v :
  bufs !! c = Some [] → chan_send bufs c v = Done (<[c := [v]]> bufs).
Proof. intros H. unfold chan_send. by rewrite H. Qed.

(** C3. For a command that [ApplyOperation] applies (it is not the
    duplicate of the client's last one): Put sets [store[k]] to [v]; Append
    sets [store[k]] to the old value, or the empty string when [k] is
    absent, followed by [v], so that on an absent key it acts exactly as the
    Put of [v]; Get returns [store[k]], or the empty string when [k] is
    absent, and leaves the store as it is; and the Get of an absent key,
    delivered to the waiting handler, is answered OK with the empty
    string. *)
Theorem store_semantics (kv : KVServer) (op : Op) :
  already_applied kv op = false →
  (Kind op = PutOp →
     state (ApplyOperation kv op).1 = <[Key op := Value op]> (state kv))
  ∧ (Kind op = AppendOp →
     state (ApplyOperation kv op).1 =
       <[Key op := default "" (state kv !! Key op) +:+ Value op]> (state kv))
  ∧ (Kind op = AppendOp → state kv !! Key op = None →
     ApplyOperation kv op = ApplyOperation kv (with_kind op PutOp))
  ∧ (Kind op = GetOp →
     (ApplyOperation kv op).2 = default "" (state kv !! Key op)
     ∧ state (ApplyOperation kv op).1 = state kv)
  ∧ (Kind op = GetOp → state kv !! Key op = None →
     ∀ (h : Chans) (w : Waiter) (reply : GetReply) (expired : bool),
       From op = me kv → ToClientCh op = Some (wClientCh w) →
       clientBufs h !! wClientCh w = Some [] →
       ∃ h1 h2,
         notify_completion (ApplyOperation kv op).1 h op (ApplyOperation kv op).2
           = Done h1
         ∧ Get_select h1 w reply expired CaseClientCh
           = Some (h2, {| grErr := OK; grValue := "" |})).
Proof.
  intros Hfresh. rewrite ApplyOperation_fresh by done. simpl.
  split; [|split; [|split; [|split]]].
  - intros Hk. by rewrite apply_to_store_put.
  - intros Hk. by rewrite apply_to_store_append.
  - intros Hk Habs.
    rewrite ApplyOperation_fresh by done.
    rewrite apply_to_store_append by done.
    rewrite (apply_to_store_put _ (with_kind op PutOp)) by done.
    simpl. by rewrite Habs.
  - intros Hk. by rewrite apply_to_store_get.
  - intros Hk Habs h w reply expired Hfrom Hch Hbuf.
    rewrite apply_to_store_get by done. rewrite Habs. simpl.
    unfold notify_completion. simpl. rewrite decide_True by done.
    rewrite Hch. rewrite chan_send_room by done. simpl.
    eexists _, _. split; [reflexivity|].
    unfold Get_select, chan_recv. simpl. rewrite lookup_insert_eq. simpl.
    reflexivity.
Qed.

Lemma store_semantics_witness :
  already_applied Sample.kv0 Sample.app_b = false
  ∧ ApplyOperation Sample.kv0 Sample.app_b
    = ApplyOperation Sample.kv0 (with_kind Sample.app_b PutOp).
Proof.
  split; [reflexivity|].
  apply (store_semantics Sample.kv0 Sample.app_b); reflexivity.
Defined.

(** ** C1: the write path and at-most-once application *)

Lemma Op_RequestId_eq op c n :
  Op_RequestId op = mkRequestId c n ↔ ClientId op = c ∧ SeqNumber op = n.
Proof.
  unfold Op_RequestId. split.
  - intros [= -> ->]. done.
  - intros [-> ->]. done.
Qed.

(** A command that changes the store went past the duplicate test. *)
Lemma store_mutations_le_fresh kv ops id :
  (store_mutations kv ops id ≤ fresh_applications kv ops id)%nat.
Proof.
  revert kv. induction ops as [|op rest IH]; intros kv; simpl; [lia|].
  specialize (IH (ApplyOperation kv op).1).
  destruct (already_applied kv op) eqn:E.
  - rewrite bool_decide_eq_false_2.
    + lia.
    + rewrite ApplyOperation_dup by done. simpl. intros [_ H]. by apply H.
  - repeat case_bool_decide; try lia. exfalso. tauto.
Qed.

Lemma fresh_applications_none kv ops id :
  Forall (λ op, Op_RequestId op ≠ id) ops → fresh_applications kv ops id = 0%nat.
Proof.
  revert kv. induction ops as [|op rest IH]; intros kv Hall; simpl; [done|].
  inversion Hall as [|? ? Hop Hrest]; subst.
  rewrite IH by done. rewrite bool_decide_eq_false_2; [done | tauto].
Qed.

(** Once the table holds [n] for [c], no later command with RequestId
    [(c, n)] gets past the duplicate test, as long as the commands of [c]
    that follow are not older than [n] and do not go back. *)
Lemma fresh_applications_recorded kv ops c n :
  seqs_nondecreasing ops →
  dedupTable kv !! c = Some n →
  Forall (λ op, ClientId op = c → n ≤ SeqNumber op) ops →
  fresh_applications kv ops (mkRequestId c n) = 0%nat.
Proof.
  revert kv. induction ops as [|op rest IH]; intros kv Hmono Htab Hge; simpl; [done|].
  destruct Hmono as [Hhead Hmono].
  inversion Hge as [|? ? Hop Hrest]; subst.
  destruct (decide (ClientId op = c)) as [Hc|Hc].
  - destruct (decide (SeqNumber op = n)) as [Hn|Hn].
    + assert (already_applied kv op = true) as Hdup
        by (apply already_applied_true; congruence).
      rewrite Hdup. rewrite bool_decide_eq_false_2 by (intros [_ ?]; done).
      rewrite ApplyOperation_dup by done. simpl. by apply IH.
    + rewrite bool_decide_eq_false_2
        by (rewrite Op_RequestId_eq; tauto).
      simpl. apply fresh_applications_none.
      eapply Forall_impl; [exact Hhead|]. simpl. intros op' Hop'.
      rewrite Op_RequestId_eq. intros [Hc' Hn'].
      specialize (Hop Hc). specialize (Hop' ltac:(congruence)). lia.
  - rewrite bool_decide_eq_false_2
      by (rewrite Op_RequestId_eq; tauto).
    simpl. apply IH; [done| |done].
    destruct (ApplyOperation_other_client kv op c) as [-> _]; done.
Qed.

Lemma fresh_applications_le_1 kv ops id :
  seqs_nondecreasing ops → (fresh_applications kv ops id ≤ 1)%nat.
Proof.
  revert kv. induction ops as [|op rest IH]; intros kv Hmono; simpl; [lia|].
  destruct Hmono as [Hhead Hmono].
  destruct (decide (Op_RequestId op = id)) as [Hid|Hid].
  - destruct id as [c n]. apply Op_RequestId_eq in Hid as [Hc Hn].
    rewrite (fresh_applications_recorded _ rest c n); [case_bool_decide; lia|done| |].
    + rewrite <- Hc, <- Hn. apply ApplyOperation_records.
    + eapply Forall_impl; [exact Hhead|]. simpl. intros op' Hop' Hc'.
      rewrite <- Hn. apply Hop'. congruence.
  - rewrite bool_decide_eq_false_2 by tauto.
    specialize (IH (ApplyOperation kv op).1 Hmono). lia.
Qed.

(** C1 (amended). When the dedup table maps the command's client to the
    command's sequence number, [ApplyOperation] returns the cached result
    and leaves the whole server, store and tables included, as it was;
    otherwise it applies the command to the store and records the sequence
    number and the result (the value read for Get, the empty string for Put
    and Append). Consequently, in a run whose sequence numbers do not
    decrease per client, the commands carrying one RequestId change the
    store at most once. *)
Theorem apply_at_most_once (kv : KVServer) :
  (∀ op, dedupTable kv !! ClientId op = Some (SeqNumber op) →
     ApplyOperation kv op = (kv, default "" (valueTable kv !! ClientId op)))
  ∧ (∀ op, dedupTable kv !! ClientId op ≠ Some (SeqNumber op) →
       let kv' := (ApplyOperation kv op).1 in
       let result := (ApplyOperation kv op).2 in
       state kv' = (apply_to_store (state kv) op).1
       ∧ dedupTable kv' = <[ClientId op := SeqNumber op]> (dedupTable kv)
       ∧ valueTable kv' = <[ClientId op := result]> (valueTable kv)
       ∧ (Kind op = GetOp → result = default "" (state kv !! Key op))
       ∧ (Kind op = PutOp ∨ Kind op = AppendOp → result = ""))
  ∧ (∀ ops id, seqs_nondecreasing ops → (store_mutations kv ops id ≤ 1)%nat).
Proof.
  split; [|split].
  - intros op H. apply ApplyOperation_dup. by apply already_applied_true.
  - intros op H. apply already_applied_false in H.
    rewrite ApplyOperation_fresh by done. simpl.
    split; [done|]. split; [done|]. split; [done|]. split.
    + intros Hk. by rewrite apply_to_store_get.
    + intros [Hk|Hk].
      * by rewrite apply_to_store_put.
      * by rewrite apply_to_store_append.
  - intros ops id Hmono.
    pose proof (store_mutations_le_fresh kv ops id).
    pose proof (fresh_applications_le_1 kv ops id Hmono). lia.
Qed.

Lemma apply_at_most_once_witness :
  seqs_nondecreasing [Sample.put1; Sample.put1_again; Sample.app2; Sample.get3]
  ∧ (store_mutations Sample.kv0
       [Sample.put1; Sample.put1_again; Sample.app2; Sample.get3]
       (mkRequestId 7 1) ≤ 1)%nat.
Proof.
  assert (seqs_nondecreasing
            [Sample.put1; Sample.put1_again; Sample.app2; Sample.get3]) as H
    by (apply (bool_decide_unpack _); vm_compute; exact I).
  split; [exact H|].
  exact (proj2 (proj2 (apply_at_most_once Sample.kv0)) _ _ H).
Defined.

(** The last sentence of C1 without the condition on the sequence numbers:
    client 7 commits sequence number 1, then 2, then 1 again; the table has
    moved on to 2 when the second Append of RequestId (7, 1) arrives, so it
    is applied as well, and RequestId (7, 1) has changed the store twice. *)
Lemma at_most_once_counterexample :
  store_mutations Sample.kv0 Sample.run_1_2_1 (mkRequestId 7 1) = 2%nat
  ∧ ¬ (store_mutations Sample.kv0 Sample.run_1_2_1 (mkRequestId 7 1) ≤ 1)%nat
  ∧ state (apply_run Sample.kv0 Sample.run_1_2_1) !! "a" = Some "xx".
Proof.
  split; [reflexivity|]. split; [|reflexivity].
  intros H. vm_compute in H. lia.
Qed.

(** ** Runs *)

Lemma apply_run_cons kv op rest :
  apply_run kv (op :: rest) = apply_run (ApplyOperation kv op).1 rest.
Proof.
  unfold apply_run. simpl. destruct (ApplyOperation kv op) as [kv1 r]. simpl.
  by destruct (apply_all kv1 rest).
Qed.

Lemma apply_results_cons kv op rest :
  apply_results kv (op :: rest) =
    (ApplyOperation kv op).2 :: apply_results (ApplyOperation kv op).1 rest.
Proof.
  unfold apply_results. simpl. destruct (ApplyOperation kv op) as [kv1 r]. simpl.
  by destruct (apply_all kv1 rest).
Qed.

Lemma apply_run_app kv ops1 ops2 :
  apply_run kv (ops1 ++ ops2) = apply_run (apply_run kv ops1) ops2.
Proof.
  revert kv. induction ops1 as [|op rest IH]; intros kv; [done|].
  rewrite <- app_comm_cons, !apply_run_cons. apply IH.
Qed.

Lemma seqs_nondecreasing_app_r ops1 ops2 :
  seqs_nondecreasing (ops1 ++ ops2) → seqs_nondecreasing ops2.
Proof.
  induction ops1 as [|op rest IH]; [done|]. simpl. intros [_ H]. by apply IH.
Qed.

(** ** C7: the recorded sequence numbers never go back *)

Lemma ApplyOperation_table_mono kv op c s :
  (∀ s0, dedupTable kv !! ClientId op = Some s0 → s0 ≤ SeqNumber op) →
  dedupTable kv !! c = Some s →
  ∃ s', dedupTable (ApplyOperation kv op).1 !! c = Some s' ∧ s ≤ s'.
Proof.
  intros Hnew Hc. destruct (decide (c = ClientId op)) as [->|Hne].
  - exists (SeqNumber op). split; [apply ApplyOperation_records | by apply Hnew].
  - exists s. split; [|lia].
    destruct (ApplyOperation_other_client kv op c Hne) as [-> _]. done.
Qed.

Lemma not_older_than_table_step kv op rest :
  seqs_nondecreasing (op :: rest) →
  not_older_than_table kv (op :: rest) →
  not_older_than_table (ApplyOperation kv op).1 rest.
Proof.
  intros [Hhead _] Hold. inversion Hold as [|? ? _ Hrest]; subst.
  unfold not_older_than_table in *. rewrite Forall_forall in *.
  intros op' Hin s Hs.
  destruct (decide (ClientId op' = ClientId op)) as [Hc|Hc].
  - rewrite Hc, ApplyOperation_records in Hs. injection Hs as <-.
    by apply Hhead.
  - destruct (ApplyOperation_other_client kv op (ClientId op') Hc) as [Hd _].
    rewrite Hd in Hs. by eapply Hrest.
Qed.

Lemma not_older_than_table_run kv ops1 ops2 :
  seqs_nondecreasing (ops1 ++ ops2) →
  not_older_than_table kv (ops1 ++ ops2) →
  not_older_than_table (apply_run kv ops1) ops2.
Proof.
  revert kv. induction ops1 as [|op rest IH]; intros kv Hmono Hold; [done|].
  rewrite apply_run_cons. rewrite <- app_comm_cons in *.
  apply IH; [by destruct Hmono|]. by apply not_older_than_table_step.
Qed.

(** From any server whose table is not ahead of the commands to come. *)
Lemma apply_run_table_mono kv ops c s :
  seqs_nondecreasing ops →
  not_older_than_table kv ops →
  dedupTable kv !! c = Some s →
  ∃ s', dedupTable (apply_run kv ops) !! c = Some s' ∧ s ≤ s'.
Proof.
  revert kv s. induction ops as [|op rest IH]; intros kv s Hmono Hold Hc.
  - exists s. split; [done|lia].
  - rewrite apply_run_cons.
    destruct (ApplyOperation_table_mono kv op c s) as (s1 & Hs1 & Hle); [|done|].
    { inversion Hold; subst. done. }
    destruct (IH (ApplyOperation kv op).1 s1) as (s2 & Hs2 & Hle2); [by destruct Hmono| |done|].
    { by apply not_older_than_table_step. }
    exists s2. split; [done|lia].
Qed.

(** C7. When the sequence numbers of each client's commands do not decrease
    along the commands reaching [ApplyOperation], the sequence number the
    dedup table records for a client never decreases: whatever it is after
    a part of the run, it is at least that after any longer part. *)
Theorem dedup_monotonic (me0 : Z) (ops1 ops2 : list Op) (c s : Z) :
  seqs_nondecreasing (ops1 ++ ops2) →
  dedupTable (apply_run (StartKVServer me0) ops1) !! c = Some s →
  ∃ s', dedupTable (apply_run (StartKVServer me0) (ops1 ++ ops2)) !! c = Some s'
        ∧ s ≤ s'.
Proof.
  intros Hmono Hs. rewrite apply_run_app.
  apply apply_run_table_mono; [by eapply seqs_nondecreasing_app_r| |done].
  apply not_older_than_table_run; [done|].
  unfold not_older_than_table. apply Forall_forall. intros op _ s0. simpl.
  by rewrite lookup_empty.
Qed.

Lemma dedup_monotonic_witness :
  seqs_nondecreasing ([Sample.put1; Sample.app_b] ++ [Sample.put1_again; Sample.app2])
  ∧ dedupTable (apply_run (StartKVServer 0) [Sample.put1; Sample.app_b]) !! 7 = Some 1
  ∧ ∃ s', dedupTable (apply_run (StartKVServer 0)
                        ([Sample.put1; Sample.app_b] ++ [Sample.put1_again; Sample.app2]))
            !! 7 = Some s' ∧ 1 ≤ s'.
Proof.
  assert (seqs_nondecreasing
            ([Sample.put1; Sample.app_b] ++ [Sample.put1_again; Sample.app2])) as H
    by (apply (bool_decide_unpack _); vm_compute; exact I).
  split; [exact H|]. split; [reflexivity|].
  exact (dedup_monotonic 0 _ _ 7 1 H eq_refl).
Defined.

(** ** C8: retries change nothing *)

(** After [ApplyOperation], the client's cached result is what the call
    returned. *)
Lemma ApplyOperation_caches kv op :
  default "" (valueTable (ApplyOperation kv op).1 !! ClientId op)
  = (ApplyOperation kv op).2.
Proof.
  destruct (already_applied kv op) eqn:E.
  - by rewrite ApplyOperation_dup.
  - rewrite ApplyOperation_fresh by done. simpl. by rewrite lookup_insert_eq.
Qed.

(** Dropping the commands whose RequestId is in [seen] does not change the
    run, when every seen RequestId that is still to come is the one the
    table holds for its client. *)
Lemma retry_free_from_run ops : ∀ kv seen,
  seqs_nondecreasing ops →
  (∀ id, id ∈ seen →
     Forall (λ op, ClientId op = reqClientId id → reqSeqNumber id ≤ SeqNumber op) ops) →
  (∀ id op, id ∈ seen → op ∈ ops → Op_RequestId op = id →
     dedupTable kv !! reqClientId id = Some (reqSeqNumber id)) →
  apply_run kv (retry_free_from seen ops) = apply_run kv ops.
Proof.
  induction ops as [|op rest IH]; intros kv seen Hmono Hge Htab; [done|].
  destruct Hmono as [Hhead Hmono]. simpl.
  destruct (decide (Op_RequestId op ∈ seen)) as [Hseen|Hnew].
  - rewrite apply_run_cons.
    assert (already_applied kv op = true) as Hdup.
    { apply already_applied_true.
      apply (Htab (Op_RequestId op) op Hseen); [left|done]. }
    rewrite ApplyOperation_dup by done. simpl. apply IH; [done| |].
    + intros id Hid. specialize (Hge id Hid). by inversion Hge.
    + intros id op' Hid Hin. apply Htab; [done|by right].
  - rewrite !apply_run_cons. apply IH; [done| |].
    + intros id [->|Hid]%elem_of_cons.
      * simpl. eapply Forall_impl; [exact Hhead|]. simpl. auto.
      * specialize (Hge id Hid). by inversion Hge.
    + intros id op' [->|Hid]%elem_of_cons Hin Hop'.
      * simpl. apply ApplyOperation_records.
      * destruct (decide (reqClientId id = ClientId op)) as [Hc|Hc].
        -- exfalso. apply Hnew.
           assert (reqSeqNumber id ≤ SeqNumber op) as H1.
           { specialize (Hge id Hid). inversion Hge as [|? ? Hop _]; subst.
             by apply Hop. }
           assert (SeqNumber op ≤ reqSeqNumber id) as H2.
           { rewrite Forall_forall in Hhead. subst id. simpl in *.
             by apply Hhead. }
           replace (Op_RequestId op) with id; [done|].
           destruct id as [c n]. simpl in *. symmetry.
           apply Op_RequestId_eq. split; [done|lia].
        -- destruct (ApplyOperation_other_client kv op (reqClientId id) Hc) as [-> _].
           apply (Htab id op'); [done|by right|done].
Qed.

Lemma retry_free_run kv ops :
  seqs_nondecreasing ops → apply_run kv (retry_free ops) = apply_run kv ops.
Proof.
  intros Hmono. apply retry_free_from_run; [done| |].
  - intros id Hid. by apply elem_of_nil in Hid.
  - intros id op Hid. by apply elem_of_nil in Hid.
Qed.

(** While the table holds [n] for [c] and the commands of [c] to come are
    not older than [n], a command with RequestId [(c, n)] gets the cached
    result back, wherever it comes in the run. *)
Lemma apply_results_recorded ops : ∀ kv c n j b,
  seqs_nondecreasing ops →
  dedupTable kv !! c = Some n →
  Forall (λ op, ClientId op = c → n ≤ SeqNumber op) ops →
  ops !! j = Some b → ClientId b = c → SeqNumber b = n →
  apply_results kv ops !! j = Some (default "" (valueTable kv !! c)).
Proof.
  induction ops as [|op rest IH]; intros kv c n j b Hmono Htab Hge Hj Hc Hn; [done|].
  destruct Hmono as [Hhead Hmono]. rewrite apply_results_cons.
  apply Forall_cons in Hge as [Hop_ge Hrest_ge].
  destruct j as [|j]; simpl in *.
  - injection Hj as ->. rewrite ApplyOperation_dup; [by rewrite Hc|].
    apply already_applied_true. congruence.
  - destruct (decide (ClientId op = c)) as [Hop|Hop].
    + assert (SeqNumber op ≤ n) as Hle.
      { rewrite Forall_forall in Hhead. rewrite <- Hn.
        apply Hhead; [by eapply list_elem_of_lookup_2 | congruence]. }
      specialize (Hop_ge Hop).
      rewrite ApplyOperation_dup
        by (apply already_applied_true; rewrite Hop, Htab; f_equal; lia).
      simpl. by eapply IH.
    + destruct (ApplyOperation_other_client kv op c) as [Hd Hv]; [done|].
      rewrite <- Hv. eapply IH; [done| |done..]. by rewrite Hd.
Qed.

(** Two commands of a run with the same RequestId get the same string. *)
Lemma apply_results_retry ops : ∀ kv i j a b,
  seqs_nondecreasing ops →
  (i < j)%nat → ops !! i = Some a → ops !! j = Some b →
  Op_RequestId a = Op_RequestId b →
  apply_results kv ops !! j = apply_results kv ops !! i.
Proof.
  induction ops as [|op rest IH]; intros kv i j a b Hmono Hij Hi Hj Hid; [done|].
  rewrite apply_results_cons. destruct Hmono as [Hhead Hmono].
  destruct j as [|j]; [lia|]. destruct i as [|i]; simpl in *.
  - injection Hi as ->. injection Hid as Hc Hn.
    rewrite <- ApplyOperation_caches.
    eapply apply_results_recorded; [done|apply ApplyOperation_records| |done..].
    eapply Forall_impl; [exact Hhead|]. simpl. auto.
  - eapply IH; [done| |done..]. lia.
Qed.

(** C8. In a run whose sequence numbers do not decrease per client, the
    store at the end is the store the retry-free run ends with (the run
    without the commands whose RequestId was committed before), and a
    command committed again under a RequestId gets the string the first
    command of that RequestId got, which for a Get is the value it read. *)
Theorem retry_idempotence (kv : KVServer) (ops : list Op) :
  seqs_nondecreasing ops →
  state (apply_run kv ops) = state (apply_run kv (retry_free ops))
  ∧ (∀ i j a b, (i < j)%nat → ops !! i = Some a → ops !! j = Some b →
       Op_RequestId a = Op_RequestId b →
       apply_results kv ops !! j = apply_results kv ops !! i).
Proof.
  intros Hmono. split.
  - by rewrite retry_free_run.
  - intros i j a b. by apply apply_results_retry.
Qed.

Lemma retry_idempotence_witness :
  seqs_nondecreasing
    [Sample.put1; Sample.put1_again; Sample.app2; Sample.get3; Sample.app_b; Sample.get3]
  ∧ state (apply_run Sample.kv0
      [Sample.put1; Sample.put1_again; Sample.app2; Sample.get3; Sample.app_b; Sample.get3])
    = state (apply_run Sample.kv0
        (retry_free
           [Sample.put1; Sample.put1_again; Sample.app2; Sample.get3; Sample.app_b; Sample.get3])).
Proof.
  assert (seqs_nondecreasing
    [Sample.put1; Sample.put1_again; Sample.app2; Sample.get3; Sample.app_b; Sample.get3])
    as H by (apply (bool_decide_unpack _); vm_compute; exact I).
  split; [exact H|].
  exact (proj1 (retry_idempotence Sample.kv0 _ H)).
Defined.

(** ** C10: every client of the dedup table has a cached result *)

Lemma ApplyOperation_tables_dom kv op :
  (∀ c, is_Some (dedupTable kv !! c) → is_Some (valueTable kv !! c)) →
  ∀ c, is_Some (dedupTable (ApplyOperation kv op).1 !! c) →
       is_Some (valueTable (ApplyOperation kv op).1 !! c).
Proof.
  intros Hdom c. destruct (already_applied kv op) eqn:E.
  - rewrite ApplyOperation_dup by done. apply Hdom.
  - rewrite ApplyOperation_fresh by done. simpl.
    destruct (decide (ClientId op = c)) as [->|Hne].
    + rewrite !lookup_insert_eq. eauto.
    + rewrite !lookup_insert_ne by done. apply Hdom.
Qed.

Lemma apply_run_tables_dom ops : ∀ kv,
  (∀ c, is_Some (dedupTable kv !! c) → is_Some (valueTable kv !! c)) →
  ∀ c, is_Some (dedupTable (apply_run kv ops) !! c) →
       is_Some (valueTable (apply_run kv ops) !! c).
Proof.
  induction ops as [|op rest IH]; intros kv Hdom; [done|].
  rewrite apply_run_cons. apply IH. by apply ApplyOperation_tables_dom.
Qed.

(** C10. From the empty tables of a new server, after any run of
    [ApplyOperation], a client with a row in [dedupTable] has a row in
    [valueTable]; so the duplicate branches of [ShouldStartCommand] and of
    [ApplyOperation] find a stored string for that client and hand back
    that string. *)
Theorem tables_same_clients (me0 : Z) (ops : list Op) (c s : Z) :
  dedupTable (apply_run (StartKVServer me0) ops) !! c = Some s →
  ∃ v, valueTable (apply_run (StartKVServer me0) ops) !! c = Some v
       ∧ (∀ err value,
            ShouldStartCommand (apply_run (StartKVServer me0) ops) c s err (Some value)
            = (false, OK, Some v))
       ∧ (∀ op, ClientId op = c → SeqNumber op = s →
            ApplyOperation (apply_run (StartKVServer me0) ops) op
            = (apply_run (StartKVServer me0) ops, v)).
Proof.
  intros Hs.
  destruct (apply_run_tables_dom ops (StartKVServer me0)) with (c := c) as [v Hv].
  - intros c' [s' Hs']. simpl in Hs'. by rewrite lookup_empty in Hs'.
  - eauto.
  - exists v. split; [done|]. split.
    + intros err value. unfold ShouldStartCommand. rewrite Hs, Hv.
      by rewrite decide_True.
    + intros op <- <-. rewrite ApplyOperation_dup; [by rewrite Hv|].
      by apply already_applied_true.
Qed.

Lemma tables_same_clients_witness :
  dedupTable (apply_run (StartKVServer 0) [Sample.put1; Sample.app_b]) !! 9 = Some 1
  ∧ ∃ v, valueTable (apply_run (StartKVServer 0) [Sample.put1; Sample.app_b]) !! 9
         = Some v.
Proof.
  split; [reflexivity|].
  destruct (tables_same_clients 0 [Sample.put1; Sample.app_b] 9 1 eq_refl)
    as (v & Hv & _).
  exists v. exact Hv.
Defined.

(** ** The pending registry and its failure channels *)

Lemma registry_ok_room kv h i x :
  registry_ok kv h → pendingRequests kv !! i = Some x →
  failBufs h !! failCh x = Some [].
Proof. intros Hok Hi. by destruct (Hok i x Hi). Qed.

Lemma registry_ok_inj kv h i j x y :
  registry_ok kv h →
  pendingRequests kv !! i = Some x → pendingRequests kv !! j = Some y →
  failCh x = failCh y → i = j.
Proof. intros Hok Hi Hj. destruct (Hok i x Hi) as [_ Hinj]. by apply (Hinj j y). Qed.

Lemma registry_ok_NoDup kv h :
  registry_ok kv h → NoDup (registry_chans kv).
Proof.
  intros Hok. unfold registry_chans.
  apply NoDup_fmap_2_strong; [|apply NoDup_map_to_list].
  intros [i x] [j y] Hi%elem_of_map_to_list Hj%elem_of_map_to_list Heq.
  simpl in Heq. assert (i = j) as -> by by eapply registry_ok_inj.
  congruence.
Qed.

Lemma delete_entries_lookup entries : ∀ m k,
  delete_entries entries m !! k
  = if decide (k ∈ entries.*1) then None else m !! k.
Proof.
  induction entries as [|[i x] rest IH]; intros m k.
  - rewrite decide_False; [done|]. apply not_elem_of_nil.
  - unfold delete_entries in *. rewrite fmap_cons. simpl. rewrite IH.
    destruct (decide (k = i)) as [->|Hne].
    + rewrite (decide_True (P := i ∈ i :: rest.*1)) by left.
      case_decide; [done|]. apply lookup_delete_eq.
    + rewrite lookup_delete_ne by done.
      repeat case_decide; try done.
      * exfalso. apply H0. by right.
      * exfalso. apply elem_of_cons in H0 as [?|?]; done.
Qed.

Lemma delete_entries_all entries (m : gmap Z RequestInfo) :
  entries ≡ₚ map_to_list m → delete_entries entries m = ∅.
Proof.
  intros Hperm. apply map_eq. intros k. rewrite delete_entries_lookup, lookup_empty.
  case_decide as Hk; [done|]. destruct (m !! k) as [x|] eqn:E; [|done].
  exfalso. apply Hk. apply list_elem_of_fmap. exists (k, x). split; [done|].
  rewrite Hperm. by apply elem_of_map_to_list.
Qed.

(** The loop of [FailAllPendingRequests] on entries whose failure channels
    are distinct and have room: it runs to its end, every entry is deleted,
    and each of those channels holds one [true]. *)
Lemma fail_entries_done entries : ∀ kv h,
  NoDup ((failCh ∘ snd) <$> entries) →
  Forall (λ e, failBufs h !! failCh e.2 = Some []) entries →
  ∃ h', fail_entries entries kv h
        = Done (set_pendingRequests kv (delete_entries entries (pendingRequests kv)), h')
        ∧ clientBufs h' = clientBufs h
        ∧ ∀ c, failBufs h' !! c
               = if decide (c ∈ (failCh ∘ snd) <$> entries) then Some [true]
                 else failBufs h !! c.
Proof.
  induction entries as [|[k v] rest IH]; intros kv h Hnd Hroom.
  - exists h. split; [by destruct kv|]. split; [done|].
    intros c. rewrite decide_False; [done|]. apply not_elem_of_nil.
  - apply Forall_cons in Hroom as [Hv Hrest]. simpl in Hv.
    rewrite fmap_cons in Hnd. apply NoDup_cons in Hnd as [Hnotin Hnd].
    cbn [fail_entries]. rewrite chan_send_room by done. cbn [mbind outcome_bind].
    destruct (IH (set_pendingRequests kv (delete k (pendingRequests kv)))
                 (set_failBufs h (<[failCh v := [true]]> (failBufs h))))
      as (h' & Hrun & Hcl & Hbufs); [done| |].
    { rewrite Forall_forall in *. intros e He. simpl.
      rewrite lookup_insert_ne; [by apply Hrest|].
      intros Heq. apply Hnotin. apply list_elem_of_fmap. by exists e. }
    exists h'. split; [exact Hrun|]. split; [done|].
    intros c. rewrite Hbufs. rewrite fmap_cons. cbn [set_failBufs failBufs compose snd].
    destruct (decide (c = failCh v)) as [->|Hne].
    + rewrite decide_False by done.
      rewrite (decide_True (P := failCh v ∈ failCh v :: _)) by left.
      apply lookup_insert_eq.
    + rewrite lookup_insert_ne by done.
      repeat case_decide; try done.
      * exfalso. apply H0. by right.
      * exfalso. apply elem_of_cons in H0 as [?|?]; done.
Qed.

Lemma FailAllPendingRequests_in_done order kv h :
  order ≡ₚ map_to_list (pendingRequests kv) →
  registry_ok kv h →
  ∃ h', FailAllPendingRequests_in order kv h = Done (set_pendingRequests kv ∅, h')
        ∧ clientBufs h' = clientBufs h
        ∧ ∀ c, failBufs h' !! c
               = if decide (c ∈ registry_chans kv) then Some [true]
                 else failBufs h !! c.
Proof.
  intros Hperm Hok. unfold FailAllPendingRequests_in.
  destruct (fail_entries_done order kv h) as (h' & Hrun & Hcl & Hbufs).
  - rewrite Hperm. by eapply registry_ok_NoDup.
  - apply Forall_forall. intros [i x] Hin. rewrite Hperm in Hin.
    apply elem_of_map_to_list in Hin. by eapply registry_ok_room.
  - exists h'. rewrite delete_entries_all in Hrun by done.
    split; [done|]. split; [done|]. intros c. rewrite Hbufs.
    unfold registry_chans.
    destruct (decide (c ∈ (failCh ∘ snd) <$> order)) as [Hin|Hout];
      [rewrite decide_True | rewrite decide_False]; try done.
    + by rewrite <- Hperm.
    + by rewrite <- Hperm.
Qed.

(** ** C6: a term change fails every pending request *)

(** C6. On a TermChanged message the iteration of the applier runs to its
    end: every failure channel of the registry has received [true], the
    registry is empty, and the store, the dedup table and the result cache
    are as before. The map iteration order makes no difference. The sends
    go through because the registered failure channels are free
    ([registry_ok]), as they are in every state the server reaches
    ([reachable_registry_ok] below). *)
Theorem TermChanged_fails_all (order : list (Z * RequestInfo)) (kv : KVServer)
    (h : Chans) (cmd : ApplyMsg) :
  TermChanged cmd = true →
  order ≡ₚ map_to_list (pendingRequests kv) →
  registry_ok kv h →
  ∃ kv' h',
    OperationExecutor_step order kv h (FromApplyCh cmd) = Done (kv', h')
    ∧ pendingRequests kv' = ∅
    ∧ state kv' = state kv
    ∧ dedupTable kv' = dedupTable kv
    ∧ valueTable kv' = valueTable kv
    ∧ (∀ i x, pendingRequests kv !! i = Some x →
         failBufs h' !! failCh x = Some [true])
    ∧ (∀ c, c ∉ registry_chans kv → failBufs h' !! c = failBufs h !! c)
    ∧ clientBufs h' = clientBufs h.
Proof.
  intros Hterm Hperm Hok. simpl. rewrite Hterm.
  destruct (FailAllPendingRequests_in_done order kv h Hperm Hok)
    as (h' & Hrun & Hcl & Hbufs).
  exists (set_pendingRequests kv ∅), h'.
  split; [done|]. do 4 (split; [done|]). split; [|split; [|done]].
  - intros i x Hi. rewrite Hbufs. rewrite decide_True; [done|].
    unfold registry_chans. apply list_elem_of_fmap. exists (i, x).
    split; [done|]. by apply elem_of_map_to_list.
  - intros c Hc. rewrite Hbufs. by rewrite decide_False.
Qed.

Lemma TermChanged_fails_all_witness :
  registry_ok Sample.kv_pending Sample.live_chans
  ∧ ∃ kv' h',
      OperationExecutor_step (map_to_list (pendingRequests Sample.kv_pending))
        Sample.kv_pending Sample.live_chans (FromApplyCh Sample.term_changed)
      = Done (kv', h')
      ∧ pendingRequests kv' = ∅.
Proof.
  assert (registry_ok Sample.kv_pending Sample.live_chans) as Hok
    by (apply (bool_decide_unpack _); vm_compute; exact I).
  split; [exact Hok|].
  destruct (TermChanged_fails_all (map_to_list (pendingRequests Sample.kv_pending))
              Sample.kv_pending Sample.live_chans Sample.term_changed
              eq_refl (reflexivity _) Hok)
    as (kv' & h' & Hrun & Hempty & _).
  exists kv', h'. split; [exact Hrun | exact Hempty].
Defined.

(** ** C5: a conflicting commit fails the pending request *)

(** [FailConflictPendingRequests] runs to its end and touches no completion
    channel. *)
Lemma conflict_fails_and_removes_aux kv h cmd op :
  Command cmd = Some op →
  registry_ok kv h →
  ∃ h', FailConflictPendingRequests kv h cmd
        = Done (set_pendingRequests kv
                  (delete (CommandIndex cmd) (pendingRequests kv)), h')
        ∧ clientBufs h' = clientBufs h.
Proof.
  intros Hcmd Hok. unfold FailConflictPendingRequests. rewrite Hcmd.
  destruct (pendingRequests kv !! CommandIndex cmd) as [info|] eqn:Hi;
    [case_decide|]; try by (exists h).
  rewrite chan_send_room by (by eapply registry_ok_room).
  by eexists.
Qed.



(** ** C9: who is notified of a commit *)

(** The registry plays no part in [ApplyOperation]. *)
Lemma ApplyOperation_set_pendingRequests kv p op :
  ApplyOperation (set_pendingRequests kv p) op
  = (set_pendingRequests (ApplyOperation kv op).1 p, (ApplyOperation kv op).2).
Proof.
  unfold ApplyOperation, already_applied. simpl.
  destruct (dedupTable kv !! ClientId op) as [s|]; [case_bool_decide|]; try done.
  all: by destruct (apply_to_store (state kv) op).
Qed.

(** C9. On a committed command the applier's iteration puts the result of
    [ApplyOperation] on the command's completion channel when the command's
    [From] is this server and the channel reference is not nil, and in
    every other case, a replayed command with a nil reference among them,
    it sends on no completion channel at all. The two hypotheses say that
    the sends of the iteration have room: the registered failure channels
    are free ([registry_ok]), and so is the completion channel when one is
    sent on (a handler makes it for one command, which the log hands over
    once). *)
Theorem completion_routing (order : list (Z * RequestInfo)) (kv : KVServer)
    (h : Chans) (cmd : ApplyMsg) (op : Op) :
  TermChanged cmd = false → CommandValid cmd = true → Command cmd = Some op →
  registry_ok kv h →
  (∀ c, From op = me kv → ToClientCh op = Some c → clientBufs h !! c = Some []) →
  ∃ kv' h',
    OperationExecutor_step order kv h (FromApplyCh cmd) = Done (kv', h')
    ∧ (∀ c, From op = me kv → ToClientCh op = Some c →
         clientBufs h' = <[c := [(ApplyOperation kv op).2]]> (clientBufs h))
    ∧ (From op ≠ me kv ∨ ToClientCh op = None → clientBufs h' = clientBufs h).
Proof.
  intros Hterm Hvalid Hcmd Hok Hroom. simpl. rewrite Hterm, Hvalid. simpl.
  destruct (conflict_fails_and_removes_aux kv h cmd op Hcmd Hok)
    as (h1 & -> & Hcl).
  simpl. rewrite Hcmd, ApplyOperation_set_pendingRequests.
  unfold notify_completion. simpl. rewrite ApplyOperation_me.
  destruct (decide (From op = me kv)) as [Hme|Hme].
  - destruct (ToClientCh op) as [c|] eqn:Hch.
    + rewrite Hcl. rewrite chan_send_room by (by apply Hroom).
      eexists _, _. split; [reflexivity|]. simpl. split.
      * by intros c' _ [= <-].
      * intros [?|?]; done.
    + eexists _, _. split; [reflexivity|]. split; [done|]. by intros _.
  - eexists _, _. split; [reflexivity|]. split; [done|]. by intros _.
Qed.

Lemma completion_routing_witness :
  (∃ kv' h',
     OperationExecutor_step (map_to_list (pendingRequests Sample.kv_pending))
       Sample.kv_pending Sample.live_chans (FromApplyCh Sample.commit_at_5)
     = Done (kv', h')
     ∧ clientBufs h' = <[1%positive := [""]]> (clientBufs Sample.live_chans))
  ∧ (∃ kv' h',
     OperationExecutor_step (map_to_list (pendingRequests Sample.kv_pending))
       Sample.kv_pending Sample.live_chans (FromApplyCh Sample.replayed_at_5)
     = Done (kv', h')
     ∧ clientBufs h' = clientBufs Sample.live_chans).
Proof.
  assert (registry_ok Sample.kv_pending Sample.live_chans) as Hok
    by (apply (bool_decide_unpack _); vm_compute; exact I).
  split.
  - destruct (completion_routing (map_to_list (pendingRequests Sample.kv_pending))
                Sample.kv_pending Sample.live_chans Sample.commit_at_5 Sample.get_q
                eq_refl eq_refl eq_refl Hok)
      as (kv' & h' & Hrun & Hsent & _).
    { intros c _ [= <-]. reflexivity. }
    exists kv', h'. split; [exact Hrun|].
    exact (Hsent 1%positive eq_refl eq_refl).
  - destruct (completion_routing (map_to_list (pendingRequests Sample.kv_pending))
                Sample.kv_pending Sample.live_chans Sample.replayed_at_5
                (mkOp "q" "" GetOp None 0 9 2)
                eq_refl eq_refl eq_refl Hok)
      as (kv' & h' & Hrun & _ & Hskip).
    { intros c _ [=]. }
    exists kv', h'. split; [exact Hrun|].
    exact (Hskip (or_intror eq_refl)).
Defined.

(** ** C4: what the handlers reply *)

Lemma ShouldStartCommand_true kv c n err value :
  (ShouldStartCommand kv c n err value).1.1 = true →
  ShouldStartCommand kv c n err value = (true, err, value).
Proof.
  unfold ShouldStartCommand. destruct (dedupTable kv !! c) as [s|]; [|done].
  repeat case_decide; simpl; done.
Qed.

Lemma Get_outcomes (start : StartFn) kv h args reply index term isLeader :
  (ShouldStartCommand kv (gaClientId args) (gaSeqNumber args)
     (grErr reply) (Some (grValue reply))).1.1 = true →
  start (Get_command kv args (fresh (dom (clientBufs h)))) = (index, term, isLeader) →
  (isLeader = false →
     ∃ h', Get_submit start kv h args reply
           = (kv, h', {| grErr := ErrWrongLeader; grValue := grValue reply |}, None))
  ∧ (isLeader = true →
     ∃ kv' h' reply' w,
       Get_submit start kv h args reply = (kv', h', reply', Some w)
       ∧ wIndex w = index
       ∧ pendingRequests kv'
         = <[index := {| requestId := mkRequestId (gaClientId args) (gaSeqNumber args);
                         failCh := wFailCh w |}]> (pendingRequests kv)
       ∧ ∀ h2 expired c h3 r,
           Get_select h2 w reply' expired c = Some (h3, r) →
           match c with
           | CaseFailCh =>
               grErr r = ErrLostLeadership
               ∧ ∃ rest, failBufs h2 !! wFailCh w = Some (true :: rest)
                         ∨ failBufs h2 !! wFailCh w = Some (false :: rest)
           | CaseClientCh =>
               grErr r = OK
               ∧ ∃ rest, clientBufs h2 !! wClientCh w = Some (grValue r :: rest)
           | CaseTimeAfter => grErr r = ErrTimeOut ∧ expired = true
           end).
Proof.
  intros Hpass Hstart. apply ShouldStartCommand_true in Hpass.
  rewrite Get_submit_eq. rewrite Hpass. simpl. rewrite Hstart. split.
  - intros ->. eexists. destruct reply; reflexivity.
  - intros ->. eexists _, _, _, _. split; [reflexivity|]. split; [done|].
    split; [done|].
    intros h2 expired c h3 r. unfold Get_select, chan_recv. simpl.
    destruct c.
    + destruct (failBufs h2 !! _) as [[|[] rest]|]; simpl; intros [= <- <-];
        (split; [done|]); exists rest; auto.
    + destruct (clientBufs h2 !! _) as [[|v rest]|]; simpl; intros [= <- <-].
      split; [done|]. by exists rest.
    + destruct expired; intros [= <- <-]; done.
Qed.

Lemma PutAppend_outcomes (start : StartFn) kv h args reply index term isLeader :
  (ShouldStartCommand kv (paClientId args) (paSeqNumber args)
     (prErr reply) None).1.1 = true →
  start (PutAppend_command kv args (fresh (dom (clientBufs h)))) = (index, term, isLeader) →
  (isLeader = false →
     ∃ h', PutAppend_submit start kv h args reply
           = (kv, h', {| prErr := ErrWrongLeader |}, None))
  ∧ (isLeader = true →
     ∃ kv' h' reply' w,
       PutAppend_submit start kv h args reply = (kv', h', reply', Some w)
       ∧ wIndex w = index
       ∧ pendingRequests kv'
         = <[index := {| requestId := mkRequestId (paClientId args) (paSeqNumber args);
                         failCh := wFailCh w |}]> (pendingRequests kv)
       ∧ ∀ h2 expired c h3 r,
           PutAppend_select h2 w reply' expired c = Some (h3, r) →
           match c with
           | CaseFailCh =>
               prErr r = ErrLostLeadership
               ∧ ∃ rest, failBufs h2 !! wFailCh w = Some (true :: rest)
                         ∨ failBufs h2 !! wFailCh w = Some (false :: rest)
           | CaseClientCh =>
               prErr r = OK
               ∧ ∃ v rest, clientBufs h2 !! wClientCh w = Some (v :: rest)
           | CaseTimeAfter => prErr r = ErrTimeOut ∧ expired = true
           end).
Proof.
  intros Hpass Hstart. apply ShouldStartCommand_true in Hpass.
  rewrite PutAppend_submit_eq. rewrite Hpass. simpl. rewrite Hstart. split.
  - intros ->. eexists. reflexivity.
  - intros ->. eexists _, _, _, _. split; [reflexivity|]. split; [done|].
    split; [done|].
    intros h2 expired c h3 r. unfold PutAppend_select, chan_recv. simpl.
    destruct c.
    + destruct (failBufs h2 !! _) as [[|[] rest]|]; simpl; intros [= <- <-];
        (split; [done|]); exists rest; auto.
    + destruct (clientBufs h2 !! _) as [[|v rest]|]; simpl; intros [= <- <-].
      split; [done|]. by exists v, rest.
    + destruct expired; intros [= <- <-]; done.
Qed.

Lemma Get_check_true kv args reply :
  (Get_check kv args reply).1 = true →
  Get_check kv args reply
  = (true, {| grErr := grErr reply; grValue := grValue reply |}).
Proof.
  unfold Get_check. intros Hpass.
  assert ((ShouldStartCommand kv (gaClientId args) (gaSeqNumber args)
             (grErr reply) (Some (grValue reply))).1.1 = true) as Hssc.
  { by destruct (ShouldStartCommand _ _ _ _ _) as [[p e] v]. }
  by rewrite (ShouldStartCommand_true _ _ _ _ _ Hssc).
Qed.

Lemma PutAppend_check_true kv args reply :
  (PutAppend_check kv args reply).1 = true →
  PutAppend_check kv args reply = (true, {| prErr := prErr reply |}).
Proof.
  unfold PutAppend_check. intros Hpass.
  assert ((ShouldStartCommand kv (paClientId args) (paSeqNumber args)
             (prErr reply) None).1.1 = true) as Hssc.
  { by destruct (ShouldStartCommand _ _ _ _ _) as [[p e] v]. }
  by rewrite (ShouldStartCommand_true _ _ _ _ _ Hssc).
Qed.

(** [Get_start] written out: both channels are new and empty. *)
Lemma Get_start_eq (start : StartFn) kv h args reply index term isLeader :
  start (Get_command kv args (fresh (dom (clientBufs h)))) = (index, term, isLeader) →
  Get_start start kv h args reply
  = ({| failBufs := <[fresh (dom (failBufs h)) := []]> (failBufs h);
        clientBufs := <[fresh (dom (clientBufs h)) := []]> (clientBufs h) |},
     if isLeader then reply
     else {| grErr := ErrWrongLeader; grValue := grValue reply |},
     if isLeader
     then Some {| wIndex := index; wFailCh := fresh (dom (failBufs h));
                  wClientCh := fresh (dom (clientBufs h)) |}
     else None).
Proof. intros Hstart. unfold Get_start. simpl. rewrite Hstart. by destruct isLeader. Qed.

Lemma PutAppend_start_eq (start : StartFn) kv h args reply index term isLeader :
  start (PutAppend_command kv args (fresh (dom (clientBufs h)))) = (index, term, isLeader) →
  PutAppend_start start kv h args reply
  = ({| failBufs := <[fresh (dom (failBufs h)) := []]> (failBufs h);
        clientBufs := <[fresh (dom (clientBufs h)) := []]> (clientBufs h) |},
     if isLeader then reply else {| prErr := ErrWrongLeader |},
     if isLeader
     then Some {| wIndex := index; wFailCh := fresh (dom (failBufs h));
                  wClientCh := fresh (dom (clientBufs h)) |}
     else None).
Proof. intros Hstart. unfold PutAppend_start. simpl. rewrite Hstart. by destruct isLeader. Qed.

(** The [select] of [Get], case by case: when the case is ready, and what
    it then does. *)
Lemma Get_select_spec h w reply expired :
  (∀ b rest, failBufs h !! wFailCh w = Some (b :: rest) →
     Get_select h w reply expired CaseFailCh
     = Some (set_failBufs h (<[wFailCh w := rest]> (failBufs h)),
             {| grErr := ErrLostLeadership; grValue := grValue reply |}))
  ∧ (failBufs h !! wFailCh w = None ∨ failBufs h !! wFailCh w = Some [] →
     Get_select h w reply expired CaseFailCh = None)
  ∧ (∀ v rest, clientBufs h !! wClientCh w = Some (v :: rest) →
     Get_select h w reply expired CaseClientCh
     = Some (set_clientBufs h (<[wClientCh w := rest]> (clientBufs h)),
             {| grErr := OK; grValue := v |}))
  ∧ (clientBufs h !! wClientCh w = None ∨ clientBufs h !! wClientCh w = Some [] →
     Get_select h w reply expired CaseClientCh = None)
  ∧ Get_select h w reply true CaseTimeAfter
    = Some (h, {| grErr := ErrTimeOut; grValue := grValue reply |})
  ∧ Get_select h w reply false CaseTimeAfter = None.
Proof.
  unfold Get_select, chan_recv. repeat apply conj; try done.
  - by intros b rest ->.
  - by intros [-> | ->].
  - by intros v rest ->.
  - by intros [-> | ->].
Qed.

(** The [select] of [PutAppend], case by case. *)
Lemma PutAppend_select_spec h w reply expired :
  (∀ b rest, failBufs h !! wFailCh w = Some (b :: rest) →
     PutAppend_select h w reply expired CaseFailCh
     = Some (set_failBufs h (<[wFailCh w := rest]> (failBufs h)),
             {| prErr := ErrLostLeadership |}))
  ∧ (failBufs h !! wFailCh w = None ∨ failBufs h !! wFailCh w = Some [] →
     PutAppend_select h w reply expired CaseFailCh = None)
  ∧ (∀ v rest, clientBufs h !! wClientCh w = Some (v :: rest) →
     PutAppend_select h w reply expired CaseClientCh
     = Some (set_clientBufs h (<[wClientCh w := rest]> (clientBufs h)),
             {| prErr := OK |}))
  ∧ (clientBufs h !! wClientCh w = None ∨ clientBufs h !! wClientCh w = Some [] →
     PutAppend_select h w reply expired CaseClientCh = None)
  ∧ PutAppend_select h w reply true CaseTimeAfter = Some (h, {| prErr := ErrTimeOut |})
  ∧ PutAppend_select h w reply false CaseTimeAfter = None.
Proof.
  unfold PutAppend_select, chan_recv. repeat apply conj; try done.
  - by intros b rest ->.
  - by intros [-> | ->].
  - by intros v rest ->.
  - by intros [-> | ->].
Qed.

(** C4. For a Get or a PutAppend that has passed the early check, on the
    answer of [Start]. Not leader: the handler returns ErrWrongLeader and
    runs no registration (the uninterrupted call leaves the server as it
    was). Leader: the handler holds two new, empty channels and the index
    [Start] gave, and its registration, whenever it gets to run, puts its
    RequestId and failure channel at that index. In its [select] each case
    fixes the reply: the failure case is ready exactly when its failure
    channel holds a value and replies ErrLostLeadership; the completion
    case is ready exactly when its completion channel holds a string and
    replies OK (for Get, with that string); the timer case is ready exactly
    when the timer has expired and replies ErrTimeOut. *)
Theorem rpc_outcome_mapping :
  (∀ (start : StartFn) kv h args reply index term isLeader,
     start (Get_command kv args (fresh (dom (clientBufs h))))
       = (index, term, isLeader) →
     (isLeader = false →
        ∃ h',
          Get_start start kv h args reply
          = (h', {| grErr := ErrWrongLeader; grValue := grValue reply |}, None)
          ∧ ((Get_check kv args reply).1 = true →
             Get_submit start kv h args reply
             = (kv, h', {| grErr := ErrWrongLeader; grValue := grValue reply |}, None)))
     ∧ (isLeader = true →
        ∃ h' w,
          Get_start start kv h args reply = (h', reply, Some w)
          ∧ wIndex w = index
          ∧ failBufs h' !! wFailCh w = Some []
          ∧ clientBufs h' !! wClientCh w = Some []
          ∧ (∀ kv2,
               pendingRequests (Get_register kv2 args w)
               = <[index := {| requestId :=
                                 mkRequestId (gaClientId args) (gaSeqNumber args);
                               failCh := wFailCh w |}]> (pendingRequests kv2))
          ∧ ((Get_check kv args reply).1 = true →
             Get_submit start kv h args reply
             = (Get_register kv args w, h',
                {| grErr := grErr reply; grValue := grValue reply |}, Some w))))
  ∧ (∀ h w reply expired,
       (∀ b rest, failBufs h !! wFailCh w = Some (b :: rest) →
          Get_select h w reply expired CaseFailCh
          = Some (set_failBufs h (<[wFailCh w := rest]> (failBufs h)),
                  {| grErr := ErrLostLeadership; grValue := grValue reply |}))
       ∧ (failBufs h !! wFailCh w = None ∨ failBufs h !! wFailCh w = Some [] →
          Get_select h w reply expired CaseFailCh = None)
       ∧ (∀ v rest, clientBufs h !! wClientCh w = Some (v :: rest) →
          Get_select h w reply expired CaseClientCh
          = Some (set_clientBufs h (<[wClientCh w := rest]> (clientBufs h)),
                  {| grErr := OK; grValue := v |}))
       ∧ (clientBufs h !! wClientCh w = None ∨ clientBufs h !! wClientCh w = Some [] →
          Get_select h w reply expired CaseClientCh = None)
       ∧ Get_select h w reply true CaseTimeAfter
         = Some (h, {| grErr := ErrTimeOut; grValue := grValue reply |})
       ∧ Get_select h w reply false CaseTimeAfter = None)
  ∧ (∀ (start : StartFn) kv h args reply index term isLeader,
       start (PutAppend_command kv args (fresh (dom (clientBufs h))))
         = (index, term, isLeader) →
       (isLeader = false →
          ∃ h',
            PutAppend_start start kv h args reply
            = (h', {| prErr := ErrWrongLeader |}, None)
            ∧ ((PutAppend_check kv args reply).1 = true →
               PutAppend_submit start kv h args reply
               = (kv, h', {| prErr := ErrWrongLeader |}, None)))
       ∧ (isLeader = true →
          ∃ h' w,
            PutAppend_start start kv h args reply = (h', reply, Some w)
            ∧ wIndex w = index
            ∧ failBufs h' !! wFailCh w = Some []
            ∧ clientBufs h' !! wClientCh w = Some []
            ∧ (∀ kv2,
                 pendingRequests (PutAppend_register kv2 args w)
                 = <[index := {| requestId :=
                                   mkRequestId (paClientId args) (paSeqNumber args);
                                 failCh := wFailCh w |}]> (pendingRequests kv2))
            ∧ ((PutAppend_check kv args reply).1 = true →
               PutAppend_submit start kv h args reply
               = (PutAppend_register kv args w, h',
                  {| prErr := prErr reply |}, Some w))))
  ∧ (∀ h w reply expired,
       (∀ b rest, failBufs h !! wFailCh w = Some (b :: rest) →
          PutAppend_select h w reply expired CaseFailCh
          = Some (set_failBufs h (<[wFailCh w := rest]> (failBufs h)),
                  {| prErr := ErrLostLeadership |}))
       ∧ (failBufs h !! wFailCh w = None ∨ failBufs h !! wFailCh w = Some [] →
          PutAppend_select h w reply expired CaseFailCh = None)
       ∧ (∀ v rest, clientBufs h !! wClientCh w = Some (v :: rest) →
          PutAppend_select h w reply expired CaseClientCh
          = Some (set_clientBufs h (<[wClientCh w := rest]> (clientBufs h)),
                  {| prErr := OK |}))
       ∧ (clientBufs h !! wClientCh w = None ∨ clientBufs h !! wClientCh w = Some [] →
          PutAppend_select h w reply expired CaseClientCh = None)
       ∧ PutAppend_select h w reply true CaseTimeAfter
         = Some (h, {| prErr := ErrTimeOut |})
       ∧ PutAppend_select h w reply false CaseTimeAfter = None).
Proof.
  split; [|split; [|split]].
  - intros start kv h args reply index term isLeader Hstart.
    rewrite (Get_start_eq _ _ _ _ _ _ _ _ Hstart). unfold Get_submit.
    split; intros ->.
    + eexists. split; [reflexivity|]. intros Hpass.
      rewrite (Get_check_true _ _ _ Hpass). simpl.
      by rewrite (Get_start_eq _ _ _ _ _ _ _ _ Hstart).
    + eexists _, _. split; [reflexivity|]. simpl.
      split; [done|]. split; [apply lookup_insert_eq|].
      split; [apply lookup_insert_eq|]. split; [done|].
      intros Hpass. rewrite (Get_check_true _ _ _ Hpass). simpl.
      by rewrite (Get_start_eq _ _ _ _ _ _ _ _ Hstart).
  - intros h w reply expired. apply Get_select_spec.
  - intros start kv h args reply index term isLeader Hstart.
    rewrite (PutAppend_start_eq _ _ _ _ _ _ _ _ Hstart). unfold PutAppend_submit.
    split; intros ->.
    + eexists. split; [reflexivity|]. intros Hpass.
      rewrite (PutAppend_check_true _ _ _ Hpass). simpl.
      by rewrite (PutAppend_start_eq _ _ _ _ _ _ _ _ Hstart).
    + eexists _, _. split; [reflexivity|]. simpl.
      split; [done|]. split; [apply lookup_insert_eq|].
      split; [apply lookup_insert_eq|]. split; [done|].
      intros Hpass. rewrite (PutAppend_check_true _ _ _ Hpass). simpl.
      by rewrite (PutAppend_start_eq _ _ _ _ _ _ _ _ Hstart).
  - intros h w reply expired. apply PutAppend_select_spec.
Qed.

Lemma rpc_outcome_mapping_witness :
  (∃ h', Get_submit Sample.not_leader Sample.kv0 Sample.no_chans Sample.get_args
           (mkGetReply "" "")
         = (Sample.kv0, h', {| grErr := ErrWrongLeader; grValue := "" |}, None))
  ∧ (∃ h' w,
       PutAppend_start Sample.leader_at_5 Sample.kv0 Sample.no_chans Sample.put_args
         (mkPutAppendReply "")
       = (h', mkPutAppendReply "", Some w)
       ∧ wIndex w = 5
       ∧ pendingRequests (PutAppend_register Sample.kv3 Sample.put_args w) !! 5
         = Some {| requestId := mkRequestId 7 1; failCh := wFailCh w |})
  ∧ Get_select (mkChans {[ 1%positive := [true] ]} {[ 1%positive := [] ]})
      (mkWaiter 5 1 1) (mkGetReply "" "") false CaseFailCh
    = Some (mkChans {[ 1%positive := [] ]} {[ 1%positive := [] ]},
            {| grErr := ErrLostLeadership; grValue := "" |})
  ∧ Get_select (mkChans {[ 1%positive := [] ]} {[ 1%positive := ["12"] ]})
      (mkWaiter 5 1 1) (mkGetReply "" "") false CaseClientCh
    = Some (mkChans {[ 1%positive := [] ]} {[ 1%positive := [] ]},
            {| grErr := OK; grValue := "12" |})
  ∧ PutAppend_select (mkChans {[ 1%positive := [] ]} {[ 1%positive := [] ]})
      (mkWaiter 5 1 1) (mkPutAppendReply "") true CaseTimeAfter
    = Some (mkChans {[ 1%positive := [] ]} {[ 1%positive := [] ]},
            {| prErr := ErrTimeOut |}).
Proof.
  destruct rpc_outcome_mapping as (HGet & HGsel & HPut & HPsel).
  split; [|split; [|split; [|split]]].
  - destruct (proj1 (HGet Sample.not_leader Sample.kv0 Sample.no_chans
                       Sample.get_args (mkGetReply "" "") 0 1 false eq_refl) eq_refl)
      as (h' & _ & Hsub).
    exists h'. exact (Hsub eq_refl).
  - destruct (proj2 (HPut Sample.leader_at_5 Sample.kv0 Sample.no_chans
                       Sample.put_args (mkPutAppendReply "") 5 1 true eq_refl) eq_refl)
      as (h' & w & Hrun & Hidx & _ & _ & Hreg & _).
    exists h', w. split; [exact Hrun|]. split; [exact Hidx|].
    rewrite (Hreg Sample.kv3). apply lookup_insert_eq.
  - exact (proj1 (HGsel (mkChans {[ 1%positive := [true] ]} {[ 1%positive := [] ]})
                    (mkWaiter 5 1 1) (mkGetReply "" "") false) true [] eq_refl).
  - exact (proj1 (proj2 (proj2
             (HGsel (mkChans {[ 1%positive := [] ]} {[ 1%positive := ["12"] ]})
                (mkWaiter 5 1 1) (mkGetReply "" "") false))) "12" [] eq_refl).
  - exact (proj1 (proj2 (proj2 (proj2 (proj2
             (HPsel (mkChans {[ 1%positive := [] ]} {[ 1%positive := [] ]})
                (mkWaiter 5 1 1) (mkPutAppendReply "") true)))))).
Defined.

(** The three cases of a [select], when they are ready. *)
Lemma Get_select_ready h w reply :
  (∀ b rest, failBufs h !! wFailCh w = Some (b :: rest) →
     is_Some (Get_select h w reply false CaseFailCh))
  ∧ (∀ v rest, clientBufs h !! wClientCh w = Some (v :: rest) →
     is_Some (Get_select h w reply false CaseClientCh))
  ∧ is_Some (Get_select h w reply true CaseTimeAfter).
Proof.
  unfold Get_select, chan_recv. split; [|split].
  - intros b rest ->. simpl. eauto.
  - intros v rest ->. simpl. eauto.
  - eauto.
Qed.

(** ** The registry condition holds in every reachable state *)

Lemma registry_wf_empty bufs : registry_wf ∅ bufs.
Proof. apply map_Forall_empty. Qed.

(** Fewer entries, and buffers that still are empty for them. *)
Lemma registry_wf_sub p p' bufs bufs' :
  registry_wf p bufs → p' ⊆ p →
  (∀ j y, p' !! j = Some y → bufs' !! failCh y = bufs !! failCh y) →
  registry_wf p' bufs'.
Proof.
  intros Hwf Hsub Hbufs i x Hi.
  assert (p !! i = Some x) as Hi' by by eapply lookup_weaken.
  destruct (Hwf i x Hi') as [Hroom Hinj]. split.
  - by rewrite (Hbufs i x).
  - intros j y Hj. apply Hinj. by eapply lookup_weaken.
Qed.

(** A new entry whose channel is free and is nobody else's. *)
Lemma registry_wf_insert p bufs i x :
  registry_wf p bufs → bufs !! failCh x = Some [] →
  (∀ j y, p !! j = Some y → failCh y ≠ failCh x) →
  registry_wf (<[i := x]> p) bufs.
Proof.
  intros Hwf Hroom Hnew j y Hj.
  destruct (decide (i = j)) as [->|Hne].
  - rewrite lookup_insert_eq in Hj. injection Hj as <-. split; [done|].
    intros k z Hk Heq. destruct (decide (j = k)) as [|Hjk]; [done|].
    rewrite lookup_insert_ne in Hk by done. exfalso. by eapply Hnew.
  - rewrite lookup_insert_ne in Hj by done.
    destruct (Hwf j y Hj) as [Hr Hinj]. split; [done|].
    intros k z Hk Heq. destruct (decide (i = k)) as [<-|Hik].
    + rewrite lookup_insert_eq in Hk. injection Hk as <-.
      exfalso. by eapply Hnew.
    + rewrite lookup_insert_ne in Hk by done. by eapply Hinj.
Qed.

(** [make] gives a channel no entry holds. *)
Lemma registry_wf_fresh p (bufs : gmap positive (list bool)) j y :
  registry_wf p bufs → p !! j = Some y → failCh y ≠ fresh (dom bufs).
Proof.
  intros Hwf Hj Heq. destruct (Hwf j y Hj) as [Hroom _].
  apply (is_fresh (dom bufs)). rewrite <- Heq. apply elem_of_dom. eauto.
Qed.

Lemma registry_wf_alloc p (bufs : gmap positive (list bool)) :
  registry_wf p bufs → registry_wf p (<[fresh (dom bufs) := []]> bufs).
Proof.
  intros Hwf. eapply registry_wf_sub; [exact Hwf|done|].
  intros j y Hj. rewrite lookup_insert_ne; [done|].
  intros Heq. by eapply registry_wf_fresh.
Qed.


(** A receive takes from a channel that has something queued, which no
    channel of the registry has. *)
Lemma registry_wf_recv p (bufs bufs' : gmap positive (list bool)) c v :
  registry_wf p bufs → chan_recv bufs c = Some (v, bufs') → registry_wf p bufs'.
Proof.
  intros Hwf Hrecv. unfold chan_recv in Hrecv.
  destruct (bufs !! c) as [[|v' rest]|] eqn:Hc; try done.
  injection Hrecv as <- <-.
  eapply registry_wf_sub; [exact Hwf|done|].
  intros j y Hj. rewrite lookup_insert_ne; [done|].
  intros ->. destruct (Hwf j y Hj) as [Hroom _]. congruence.
Qed.

Lemma FailConflictPendingRequests_registry_ok kv h cmd kv1 h1 :
  registry_ok kv h →
  FailConflictPendingRequests kv h cmd = Done (kv1, h1) →
  registry_ok kv1 h1.
Proof.
  unfold registry_ok, FailConflictPendingRequests. intros Hwf.
  destruct (Command cmd) as [op|]; [|done].
  destruct (pendingRequests kv !! CommandIndex cmd) as [info|] eqn:Hi.
  - case_decide as Hid.
    + rewrite chan_send_room by (by destruct (Hwf _ _ Hi)).
      simpl. intros [= <- <-]. simpl.
      eapply registry_wf_sub; [exact Hwf|apply delete_subseteq|].
      intros j y Hj. apply lookup_delete_Some in Hj as [Hne Hj].
      rewrite lookup_insert_ne; [done|].
      intros Heq. apply Hne. symmetry. by eapply (registry_ok_inj kv h).
    + simpl. intros [= <- <-]. simpl.
      eapply registry_wf_sub; [exact Hwf|apply delete_subseteq|done].
  - simpl. intros [= <- <-]. simpl.
    eapply registry_wf_sub; [exact Hwf|apply delete_subseteq|done].
Qed.

Lemma notify_completion_failBufs kv h op result h' :
  notify_completion kv h op result = Done h' → failBufs h' = failBufs h.
Proof.
  unfold notify_completion. case_decide; [|by intros [= <-]].
  destruct (ToClientCh op) as [c|]; [|by intros [= <-]].
  destruct (chan_send (clientBufs h) c result); simpl; [|done..].
  by intros [= <-].
Qed.

Lemma OperationExecutor_step_registry_ok order kv h ev kv' h' :
  order ≡ₚ map_to_list (pendingRequests kv) →
  registry_ok kv h →
  OperationExecutor_step order kv h ev = Done (kv', h') →
  registry_ok kv' h'.
Proof.
  intros Hperm Hok. destruct ev as [cmd|killed]; simpl; [|by intros [= <- <-]].
  destruct (TermChanged cmd).
  - destruct (FailAllPendingRequests_in_done order kv h Hperm Hok)
      as (h1 & -> & _). intros [= <- <-]. apply registry_wf_empty.
  - destruct (CommandValid cmd); simpl; [|by intros [= <- <-]].
    destruct (FailConflictPendingRequests kv h cmd) as [[kv1 h1]| |] eqn:Hconf;
      simpl; [|done..].
    pose proof (FailConflictPendingRequests_registry_ok _ _ _ _ _ Hok Hconf) as Hok1.
    destruct (Command cmd) as [op|]; [|done].
    pose proof (ApplyOperation_pending kv1 op) as Hp.
    destruct (ApplyOperation kv1 op) as [kv2 result]. simpl in Hp.
    destruct (notify_completion kv2 h1 op result) as [h2| |] eqn:Hn; simpl; [|done..].
    intros [= <- <-]. unfold registry_ok in *.
    rewrite Hp, (notify_completion_failBufs _ _ _ _ _ Hn). done.
Qed.



Lemma Get_select_registry_ok kv h w reply expired c h' reply' :
  registry_ok kv h →
  Get_select h w reply expired c = Some (h', reply') →
  registry_ok kv h'.
Proof.
  unfold registry_ok, Get_select. intros Hwf. destruct c.
  - destruct (chan_recv (failBufs h) (wFailCh w)) as [[v bufs]|] eqn:Hr; [|done].
    simpl. intros [= <- _]. simpl. by eapply registry_wf_recv.
  - destruct (chan_recv (clientBufs h) (wClientCh w)) as [[v bufs]|]; [|done].
    simpl. by intros [= <- _].
  - destruct expired; [|done]. by intros [= <- _].
Qed.

Lemma PutAppend_select_registry_ok kv h w reply expired c h' reply' :
  registry_ok kv h →
  PutAppend_select h w reply expired c = Some (h', reply') →
  registry_ok kv h'.
Proof.
  unfold registry_ok, PutAppend_select. intros Hwf. destruct c.
  - destruct (chan_recv (failBufs h) (wFailCh w)) as [[v bufs]|] eqn:Hr; [|done].
    simpl. intros [= <- _]. simpl. by eapply registry_wf_recv.
  - destruct (chan_recv (clientBufs h) (wClientCh w)) as [[v bufs]|]; [|done].
    simpl. by intros [= <- _].
  - destruct expired; [|done]. by intros [= <- _].
Qed.



(** * Further properties of the code *)

(** ** The store under [ApplyOperation] *)

Lemma apply_to_store_other_key st op k :
  Key op ≠ k → (apply_to_store st op).1 !! k = st !! k.
Proof.
  intros Hk. unfold apply_to_store.
  repeat case_decide; simpl; by rewrite ?lookup_insert_ne.
Qed.

Lemma apply_to_store_no_write st op :
  Kind op ≠ PutOp → Kind op ≠ AppendOp → (apply_to_store st op).1 = st.
Proof.
  intros Hp Ha. unfold apply_to_store.
  rewrite !decide_False by done. by case_decide.
Qed.

Lemma ApplyOperation_state_lookup kv op k :
  (Key op = k → Kind op ≠ PutOp ∧ Kind op ≠ AppendOp) →
  state (ApplyOperation kv op).1 !! k = state kv !! k.
Proof.
  intros Hk. destruct (already_applied kv op) eqn:E.
  - by rewrite ApplyOperation_dup.
  - rewrite ApplyOperation_fresh by done. simpl.
    destruct (decide (Key op = k)) as [Heq|Hne].
    + destruct (Hk Heq). by rewrite apply_to_store_no_write.
    + by apply apply_to_store_other_key.
Qed.

Lemma apply_run_state_lookup kv ops k :
  Forall (λ op, Key op = k → Kind op ≠ PutOp ∧ Kind op ≠ AppendOp) ops →
  state (apply_run kv ops) !! k = state kv !! k.
Proof.
  revert kv. induction ops as [|op rest IH]; intros kv Hall; [done|].
  apply Forall_cons in Hall as [Hop Hrest].
  rewrite apply_run_cons, IH by done. by apply ApplyOperation_state_lookup.
Qed.

(** X1. A key keeps its value over a run of the applier in which no Put
    and no Append names it: commands on other keys, Gets, commands with any
    other operation name and duplicates all leave it alone. A run without
    any Put or Append leaves the whole store as it was. *)
Theorem store_key_untouched (kv : KVServer) (ops : list Op) :
  (∀ k, Forall (λ op, Key op = k → Kind op ≠ PutOp ∧ Kind op ≠ AppendOp) ops →
        state (apply_run kv ops) !! k = state kv !! k)
  ∧ (Forall (λ op, Kind op ≠ PutOp ∧ Kind op ≠ AppendOp) ops →
     state (apply_run kv ops) = state kv).
Proof.
  split.
  - intros k Hall. by apply apply_run_state_lookup.
  - intros Hall. apply map_eq. intros k. apply apply_run_state_lookup.
    eapply Forall_impl; [exact Hall|]. simpl. auto.
Qed.

Lemma store_key_untouched_witness :
  Forall (λ op, Key op = "b" → Kind op ≠ PutOp ∧ Kind op ≠ AppendOp)
    [Sample.put1; Sample.app2; Sample.get3]
  ∧ state (apply_run (apply_run Sample.kv0 [Sample.app_b])
             [Sample.put1; Sample.app2; Sample.get3]) !! "b"
    = state (apply_run Sample.kv0 [Sample.app_b]) !! "b".
Proof.
  assert (Forall (λ op, Key op = "b" → Kind op ≠ PutOp ∧ Kind op ≠ AppendOp)
            [Sample.put1; Sample.app2; Sample.get3]) as H
    by (apply (bool_decide_unpack _); vm_compute; exact I).
  split; [exact H|].
  exact (proj1 (store_key_untouched _ _) "b" H).
Defined.

(** X2. A Get reads what the last write left: after a Put of [v] to a key
    that is applied (not a duplicate), and any run that does not Put or
    Append to that key, an applied Get of the key returns [v]; after an
    applied Append of [v] it returns the value the key had before the
    Append (the empty string if it had none) followed by [v]. *)
Theorem get_reads_last_write (kv : KVServer) (w : Op) (mid : list Op) (g : Op) :
  already_applied kv w = false →
  Forall (λ op, Key op = Key w → Kind op ≠ PutOp ∧ Kind op ≠ AppendOp) mid →
  Kind g = GetOp → Key g = Key w →
  already_applied (apply_run kv (w :: mid)) g = false →
  (Kind w = PutOp →
     (ApplyOperation (apply_run kv (w :: mid)) g).2 = Value w)
  ∧ (Kind w = AppendOp →
     (ApplyOperation (apply_run kv (w :: mid)) g).2
     = default "" (state kv !! Key w) +:+ Value w).
Proof.
  intros Hw Hmid Hg Hkey Hfresh.
  rewrite ApplyOperation_fresh by done. simpl.
  rewrite apply_to_store_get by done. simpl.
  rewrite Hkey, apply_run_cons, apply_run_state_lookup by done.
  rewrite ApplyOperation_fresh by done. simpl. split; intros Hk.
  - rewrite apply_to_store_put by done. simpl. by rewrite lookup_insert_eq.
  - rewrite apply_to_store_append by done. simpl. by rewrite lookup_insert_eq.
Qed.

Lemma get_reads_last_write_witness :
  (ApplyOperation (apply_run Sample.kv0 [Sample.put1; Sample.app_b]) Sample.get3).2
  = "1".
Proof.
  refine (proj1 (get_reads_last_write Sample.kv0 Sample.put1 [Sample.app_b]
                   Sample.get3 eq_refl _ eq_refl eq_refl eq_refl) eq_refl).
  apply (bool_decide_unpack _); vm_compute; exact I.
Defined.

(** X3. A command whose operation name is none of Put, Append and Get
    changes no key and returns the empty string, and is recorded all the
    same: the client's row then holds its sequence number and the empty
    result, so committing it again counts as a duplicate. *)
Theorem unknown_operation_is_recorded (kv : KVServer) (op : Op) :
  Kind op ≠ PutOp → Kind op ≠ AppendOp → Kind op ≠ GetOp →
  already_applied kv op = false →
  state (ApplyOperation kv op).1 = state kv
  ∧ (ApplyOperation kv op).2 = ""
  ∧ dedupTable (ApplyOperation kv op).1 !! ClientId op = Some (SeqNumber op)
  ∧ valueTable (ApplyOperation kv op).1 !! ClientId op = Some ""
  ∧ already_applied (ApplyOperation kv op).1 op = true.
Proof.
  intros Hp Ha Hg Hfresh.
  assert ((apply_to_store (state kv) op).2 = "") as Hres.
  { unfold apply_to_store. by rewrite !decide_False. }
  split; [|split; [|split; [|split]]].
  - rewrite ApplyOperation_fresh by done. simpl. by apply apply_to_store_no_write.
  - by rewrite ApplyOperation_fresh.
  - apply ApplyOperation_records.
  - rewrite ApplyOperation_fresh by done. simpl. by rewrite lookup_insert_eq, Hres.
  - apply already_applied_true, ApplyOperation_records.
Qed.

Lemma unknown_operation_is_recorded_witness :
  state (ApplyOperation Sample.kv3 (mkOp "a" "z" "Delete" None 0 7 4)).1
  = state Sample.kv3.
Proof.
  refine (proj1 (unknown_operation_is_recorded Sample.kv3
                   (mkOp "a" "z" "Delete" None 0 7 4) _ _ _ eq_refl));
    discriminate.
Defined.

(** ** What the tables hold *)

Lemma apply_run_other_clients kv ops c :
  Forall (λ op, ClientId op ≠ c) ops →
  dedupTable (apply_run kv ops) !! c = dedupTable kv !! c
  ∧ valueTable (apply_run kv ops) !! c = valueTable kv !! c.
Proof.
  revert kv. induction ops as [|op rest IH]; intros kv Hall; [done|].
  apply Forall_cons in Hall as [Hop Hrest]. rewrite apply_run_cons.
  destruct (IH (ApplyOperation kv op).1 Hrest) as [-> ->].
  by apply ApplyOperation_other_client.
Qed.

(** X4. After any run of the applier, whatever the order of the sequence
    numbers in it, the row of a client holds the sequence number of the
    client's last command in the run, and the cached result is the string
    [ApplyOperation] returned for that command; the row of a client without
    a command in the run is as it was. *)
Theorem tables_hold_last_command (kv : KVServer) :
  (∀ pre op post,
     Forall (λ op', ClientId op' ≠ ClientId op) post →
     dedupTable (apply_run kv (pre ++ op :: post)) !! ClientId op
       = Some (SeqNumber op)
     ∧ default "" (valueTable (apply_run kv (pre ++ op :: post)) !! ClientId op)
       = (ApplyOperation (apply_run kv pre) op).2)
  ∧ (∀ ops c,
       Forall (λ op, ClientId op ≠ c) ops →
       dedupTable (apply_run kv ops) !! c = dedupTable kv !! c
       ∧ valueTable (apply_run kv ops) !! c = valueTable kv !! c).
Proof.
  split.
  - intros pre op post Hpost.
    rewrite apply_run_app, apply_run_cons.
    destruct (apply_run_other_clients
                (ApplyOperation (apply_run kv pre) op).1 post (ClientId op) Hpost)
      as [-> ->].
    split; [apply ApplyOperation_records | apply ApplyOperation_caches].
  - intros ops c. apply apply_run_other_clients.
Qed.

Lemma tables_hold_last_command_witness :
  dedupTable (apply_run Sample.kv0
                ([Sample.get3; Sample.app2] ++ Sample.put1 :: [Sample.app_b])) !! 7
  = Some 1.
Proof.
  refine (proj1 (proj1 (tables_hold_last_command Sample.kv0)
                   [Sample.get3; Sample.app2] Sample.put1 [Sample.app_b] _)).
  apply (bool_decide_unpack _); vm_compute; exact I.
Defined.

(** ** Who writes what *)

Lemma fail_entries_data entries : ∀ kv h kv' h',
  fail_entries entries kv h = Done (kv', h') →
  me kv' = me kv ∧ state kv' = state kv
  ∧ dedupTable kv' = dedupTable kv ∧ valueTable kv' = valueTable kv
  ∧ clientBufs h' = clientBufs h.
Proof.
  induction entries as [|[k v] rest IH]; intros kv h kv' h'; simpl.
  - by intros [= <- <-].
  - destruct (chan_send (failBufs h) (failCh v) true) as [bufs| |]; simpl; [|done..].
    intros Hrun. by destruct (IH _ _ _ _ Hrun) as (-> & -> & -> & -> & ->).
Qed.

Lemma FailConflictPendingRequests_data kv h cmd kv' h' :
  FailConflictPendingRequests kv h cmd = Done (kv', h') →
  kv' = set_pendingRequests kv (delete (CommandIndex cmd) (pendingRequests kv))
  ∧ clientBufs h' = clientBufs h.
Proof.
  unfold FailConflictPendingRequests.
  destruct (Command cmd) as [op|]; [|done].
  destruct (pendingRequests kv !! CommandIndex cmd) as [info|];
    [case_decide|]; simpl; try by intros [= <- <-].
  destruct (chan_send (failBufs h) (failCh info) true) as [bufs| |]; simpl; [|done..].
  by intros [= <- <-].
Qed.



Lemma Get_submit_data (start : StartFn) kv h args reply :
  let kv' := (Get_submit start kv h args reply).1.1.1 in
  me kv' = me kv ∧ state kv' = state kv
  ∧ dedupTable kv' = dedupTable kv ∧ valueTable kv' = valueTable kv.
Proof.
  rewrite Get_submit_eq.
  destruct (ShouldStartCommand _ _ _ _ _) as [[[] err] value]; simpl; [|done].
  by destruct (start _) as [[index term] []].
Qed.

Lemma PutAppend_submit_data (start : StartFn) kv h args reply :
  let kv' := (PutAppend_submit start kv h args reply).1.1.1 in
  me kv' = me kv ∧ state kv' = state kv
  ∧ dedupTable kv' = dedupTable kv ∧ valueTable kv' = valueTable kv.
Proof.
  rewrite PutAppend_submit_eq.
  destruct (ShouldStartCommand _ _ _ _ _) as [[[] err] value]; simpl; [|done].
  by destruct (start _) as [[index term] []].
Qed.

(** X5. The handlers never write the store, the dedup table or the result
    cache: whatever [Get] and [PutAppend] do before their [select], and
    whatever [Start] answers, these maps are as before; the same holds for
    an iteration of the applier on a TermChanged message. The only writer
    is [ApplyOperation] on a committed command. *)
Theorem only_the_applier_writes (kv : KVServer) (h : Chans) :
  (∀ (start : StartFn) args reply,
     let kv' := (Get_submit start kv h args reply).1.1.1 in
     state kv' = state kv ∧ dedupTable kv' = dedupTable kv
     ∧ valueTable kv' = valueTable kv)
  ∧ (∀ (start : StartFn) args reply,
       let kv' := (PutAppend_submit start kv h args reply).1.1.1 in
       state kv' = state kv ∧ dedupTable kv' = dedupTable kv
       ∧ valueTable kv' = valueTable kv)
  ∧ (∀ order cmd kv' h',
       TermChanged cmd = true ∨ CommandValid cmd = false →
       OperationExecutor_step order kv h (FromApplyCh cmd) = Done (kv', h') →
       state kv' = state kv ∧ dedupTable kv' = dedupTable kv
       ∧ valueTable kv' = valueTable kv).
Proof.
  split; [|split].
  - intros start args reply. by destruct (Get_submit_data start kv h args reply) as (_ & ? & ? & ?).
  - intros start args reply. by destruct (PutAppend_submit_data start kv h args reply) as (_ & ? & ? & ?).
  - intros order cmd kv' h' Hcmd. simpl. destruct (TermChanged cmd).
    + intros Hrun. unfold FailAllPendingRequests_in in Hrun.
      by destruct (fail_entries_data _ _ _ _ _ Hrun) as (_ & -> & -> & -> & _).
    + destruct Hcmd as [?| ->]; [done|]. simpl. by intros [= <- <-].
Qed.

Lemma only_the_applier_writes_witness :
  state (PutAppend_submit Sample.leader_at_5 Sample.kv0 Sample.no_chans
           Sample.put_args (mkPutAppendReply "")).1.1.1
  = state Sample.kv0.
Proof.
  exact (proj1 (proj1 (proj2 (only_the_applier_writes Sample.kv0 Sample.no_chans))
                  Sample.leader_at_5 Sample.put_args (mkPutAppendReply ""))).
Defined.

(** ** Invariants of the reachable states *)





(** ** Failure signals go to registered handlers only *)

Lemma fresh_not_live {A : Type} (bufs : gmap positive (list A)) f buf :
  bufs !! f = Some buf → fresh (dom bufs) ≠ f.
Proof.
  intros Hf Heq. apply (is_fresh (dom bufs)). rewrite Heq.
  apply elem_of_dom. eauto.
Qed.

Lemma chan_recv_empty_other {A : Type} (bufs bufs' : gmap positive (list A)) c v f :
  chan_recv bufs c = Some (v, bufs') → bufs !! f = Some [] → bufs' !! f = Some [].
Proof.
  unfold chan_recv. destruct (bufs !! c) as [[|v' rest]|] eqn:Hc; try done.
  intros [= <- <-] Hf. rewrite lookup_insert_ne; [done|]. congruence.
Qed.

Lemma FailConflictPendingRequests_failBufs kv h cmd kv' h' f :
  FailConflictPendingRequests kv h cmd = Done (kv', h') →
  (∀ i x, pendingRequests kv !! i = Some x → failCh x ≠ f) →
  failBufs h' !! f = failBufs h !! f.
Proof.
  unfold FailConflictPendingRequests.
  destruct (Command cmd) as [op|]; [|done].
  destruct (pendingRequests kv !! CommandIndex cmd) as [info|] eqn:Hi;
    [case_decide|]; simpl; try by intros [= <- <-].
  destruct (chan_send (failBufs h) (failCh info) true) as [bufs| |] eqn:Hs;
    simpl; [|done..].
  intros [= <- <-] Hf. simpl. unfold chan_send in Hs.
  destruct (failBufs h !! failCh info) as [buf|]; [|done].
  case_decide; [|done]. injection Hs as <-.
  rewrite lookup_insert_ne; [done|]. by eapply Hf.
Qed.

Lemma OperationExecutor_step_silent order kv h ev kv' h' f :
  order ≡ₚ map_to_list (pendingRequests kv) →
  registry_ok kv h →
  OperationExecutor_step order kv h ev = Done (kv', h') →
  failBufs h !! f = Some [] →
  (∀ i x, pendingRequests kv !! i = Some x → failCh x ≠ f) →
  failBufs h' !! f = Some []
  ∧ (∀ i x, pendingRequests kv' !! i = Some x → failCh x ≠ f).
Proof.
  intros Hperm Hok Hrun Hf Hunreg.
  destruct ev as [cmd|killed]; simpl in Hrun; [|by injection Hrun as <- <-].
  destruct (TermChanged cmd).
  - destruct (FailAllPendingRequests_in_done order kv h Hperm Hok)
      as (h1 & Hdone & _ & Hbufs).
    rewrite Hdone in Hrun. injection Hrun as <- <-. split; [|done].
    rewrite Hbufs, decide_False; [done|].
    unfold registry_chans. intros ([i x] & Heq & Hin)%list_elem_of_fmap.
    apply elem_of_map_to_list in Hin. simpl in Heq. by eapply Hunreg.
  - destruct (CommandValid cmd); simpl in Hrun; [|by injection Hrun as <- <-].
    destruct (FailConflictPendingRequests kv h cmd) as [[kv1 h1]| |] eqn:Hconf;
      simpl in Hrun; [|done..].
    pose proof (FailConflictPendingRequests_failBufs _ _ _ _ _ f Hconf Hunreg) as Hb.
    apply FailConflictPendingRequests_data in Hconf as [-> _].
    destruct (Command cmd) as [op|]; [|done].
    rewrite ApplyOperation_set_pendingRequests in Hrun.
    destruct (notify_completion _ h1 op _) as [h2| |] eqn:Hn; simpl in Hrun; [|done..].
    injection Hrun as <- <-. simpl.
    rewrite (notify_completion_failBufs _ _ _ _ _ Hn), Hb. split; [done|].
    intros i x [_ Hi]%lookup_delete_Some. by eapply Hunreg.
Qed.





(** ** A request from submission to reply *)

Lemma ShouldStartCommand_true_fresh kv c n err value :
  (ShouldStartCommand kv c n err value).1.1 = true →
  dedupTable kv !! c ≠ Some n.
Proof.
  unfold ShouldStartCommand. intros Hpass Hc. rewrite Hc in Hpass.
  by rewrite decide_True in Hpass.
Qed.

(** The applier's iteration on the commit at [index] of a command of this
    server whose completion channel is live and empty, when the registry
    holds at [index] nothing or the command's own registration: no failure
    signal, the index is cleared, the result is queued on the completion
    channel. *)
Lemma commit_of_own_command order kvc hc op index f c :
  From op = me kvc → ToClientCh op = Some c →
  clientBufs hc !! c = Some [] →
  pendingRequests kvc !! index = None
  ∨ pendingRequests kvc !! index
    = Some {| requestId := Op_RequestId op; failCh := f |} →
  OperationExecutor_step order kvc hc
    (FromApplyCh (mkApplyMsg false true (Some op) index))
  = Done (set_pendingRequests (ApplyOperation kvc op).1
            (delete index (pendingRequests kvc)),
          set_clientBufs hc (<[c := [(ApplyOperation kvc op).2]]> (clientBufs hc))).
Proof.
  intros Hfrom Hch Hroom Hreg. simpl.
  unfold FailConflictPendingRequests. simpl.
  assert ((match pendingRequests kvc !! index with
           | Some info =>
               if decide (requestId info ≠ Op_RequestId op) then
                 bufs ← chan_send (failBufs hc) (failCh info) true;
                 Done (set_failBufs hc bufs)
               else Done hc
           | None => Done hc
           end) = Done hc) as ->.
  { destruct Hreg as [-> | ->]; [done|]. simpl.
    by rewrite decide_False by (intros Hne; by apply Hne). }
  simpl. rewrite ApplyOperation_set_pendingRequests.
  unfold notify_completion. simpl. rewrite ApplyOperation_me.
  rewrite decide_True by done. rewrite Hch.
  by rewrite chan_send_room.
Qed.

(** An iteration on a committed command clears the index of the command
    and no other. *)
Lemma OperationExecutor_step_pending order kv h cmd kv' h' :
  TermChanged cmd = false → CommandValid cmd = true →
  OperationExecutor_step order kv h (FromApplyCh cmd) = Done (kv', h') →
  pendingRequests kv' = delete (CommandIndex cmd) (pendingRequests kv).
Proof.
  intros Hterm Hvalid. simpl. rewrite Hterm, Hvalid. simpl.
  destruct (FailConflictPendingRequests kv h cmd) as [[kv1 h1]| |] eqn:Hconf;
    simpl; [|done..].
  apply FailConflictPendingRequests_data in Hconf as [-> _].
  destruct (Command cmd) as [op|]; [|done].
  rewrite ApplyOperation_set_pendingRequests.
  destruct (notify_completion _ h1 op _) as [h2| |]; simpl; [|done..].
  by intros [= <- <-].
Qed.

(** X8. A Get accepted by a leader at [index] whose own command commits at
    [index], in either order of its registration and the commit, nothing
    being queued on its two channels before. Registered when the commit is
    handled: the applier's iteration sends no failure signal and removes
    the registration. Commit handled before it registers, nothing being
    registered at [index]: the iteration delivers the result all the same,
    and the registration made afterwards stays in the registry, a later
    commit at another index does not remove it. In both orders the
    handler's [select] then has the failure case not ready and the
    completion case ready, replying OK with the string [ApplyOperation]
    returned, which is the value of the key in the store (the empty string
    for a key the store lacks) when the command had not been applied
    before; the timer case is not ready before the timer expires. *)
Theorem Get_committed_replies_value (start : StartFn) (kv : KVServer) (h : Chans)
    (args : GetArgs) (reply : GetReply) (index term : Z) :
  start (Get_command kv args (fresh (dom (clientBufs h)))) = (index, term, true) →
  ∃ h1 w,
    Get_start start kv h args reply = (h1, reply, Some w)
    ∧ wIndex w = index
    ∧ failBufs h1 !! wFailCh w = Some []
    ∧ clientBufs h1 !! wClientCh w = Some []
    ∧ (∀ order kvc hc expired,
         me kvc = me kv →
         pendingRequests kvc !! index
         = Some {| requestId := mkRequestId (gaClientId args) (gaSeqNumber args);
                   failCh := wFailCh w |} →
         failBufs hc !! wFailCh w = Some [] →
         clientBufs hc !! wClientCh w = Some [] →
         ∃ kv2 h2 h3,
           OperationExecutor_step order kvc hc
             (FromApplyCh (mkApplyMsg false true
                             (Some (Get_command kv args (wClientCh w))) index))
           = Done (kv2, h2)
           ∧ pendingRequests kv2 = delete index (pendingRequests kvc)
           ∧ failBufs h2 = failBufs hc
           ∧ Get_select h2 w reply expired CaseFailCh = None
           ∧ Get_select h2 w reply expired CaseClientCh
             = Some (h3, {| grErr := OK;
                            grValue := (ApplyOperation kvc
                                          (Get_command kv args (wClientCh w))).2 |})
           ∧ Get_select h2 w reply false CaseTimeAfter = None
           ∧ (already_applied kvc (Get_command kv args (wClientCh w)) = false →
              (ApplyOperation kvc (Get_command kv args (wClientCh w))).2
              = default "" (state kvc !! gaKey args)
              ∧ state kv2 = state kvc))
    ∧ (∀ order kvc hc expired,
         me kvc = me kv →
         pendingRequests kvc !! index = None →
         failBufs hc !! wFailCh w = Some [] →
         clientBufs hc !! wClientCh w = Some [] →
         ∃ kv2 h2 h3,
           OperationExecutor_step order kvc hc
             (FromApplyCh (mkApplyMsg false true
                             (Some (Get_command kv args (wClientCh w))) index))
           = Done (kv2, h2)
           ∧ failBufs h2 = failBufs hc
           ∧ pendingRequests (Get_register kv2 args w) !! index
             = Some {| requestId := mkRequestId (gaClientId args) (gaSeqNumber args);
                       failCh := wFailCh w |}
           ∧ (∀ order' cmd' kv3 h3',
                TermChanged cmd' = false → CommandValid cmd' = true →
                CommandIndex cmd' ≠ index →
                OperationExecutor_step order' (Get_register kv2 args w) h2
                  (FromApplyCh cmd') = Done (kv3, h3') →
                pendingRequests kv3 !! index
                = Some {| requestId :=
                            mkRequestId (gaClientId args) (gaSeqNumber args);
                          failCh := wFailCh w |})
           ∧ Get_select h2 w reply expired CaseFailCh = None
           ∧ Get_select h2 w reply expired CaseClientCh
             = Some (h3, {| grErr := OK;
                            grValue := (ApplyOperation kvc
                                          (Get_command kv args (wClientCh w))).2 |})
           ∧ Get_select h2 w reply false CaseTimeAfter = None
           ∧ (already_applied kvc (Get_command kv args (wClientCh w)) = false →
              (ApplyOperation kvc (Get_command kv args (wClientCh w))).2
              = default "" (state kvc !! gaKey args)
              ∧ state kv2 = state kvc)).
Proof.
  intros Hstart. rewrite (Get_start_eq _ _ _ _ _ _ _ _ Hstart).
  eexists _, _. split; [reflexivity|].
  cbn [wFailCh wClientCh wIndex failBufs clientBufs].
  split; [done|]. split; [apply lookup_insert_eq|]. split; [apply lookup_insert_eq|].
  set (c := fresh (dom (clientBufs h))). set (f := fresh (dom (failBufs h))).
  set (op := Get_command kv args c).
  assert (∀ kvc, already_applied kvc op = false →
            (ApplyOperation kvc op).2 = default "" (state kvc !! gaKey args)
            ∧ state (ApplyOperation kvc op).1 = state kvc) as Hread.
  { intros kvc Hnew. rewrite ApplyOperation_fresh by done.
    by rewrite apply_to_store_get. }
  split.
  - intros order kvc hc expired Hme Hreg Hf Hc.
    rewrite (commit_of_own_command order kvc hc op index f c);
      [|by rewrite Hme|done|done|by right].
    eexists _, _, _. split; [reflexivity|]. simpl.
    split; [done|]. split; [done|].
    unfold Get_select, chan_recv. simpl. rewrite Hf, lookup_insert_eq. simpl.
    split; [done|]. split; [reflexivity|]. split; [done|]. apply Hread.
  - intros order kvc hc expired Hme Hreg Hf Hc.
    rewrite (commit_of_own_command order kvc hc op index f c);
      [|by rewrite Hme|done|done|by left].
    eexists _, _, _. split; [reflexivity|]. simpl.
    split; [done|]. split; [apply lookup_insert_eq|]. split.
    + intros order' cmd' kv3 h3' Hterm Hvalid Hidx Hrun.
      rewrite (OperationExecutor_step_pending _ _ _ _ _ _ Hterm Hvalid Hrun).
      rewrite lookup_delete_ne by done. apply lookup_insert_eq.
    + unfold Get_select, chan_recv. simpl. rewrite Hf, lookup_insert_eq. simpl.
      split; [done|]. split; [reflexivity|]. split; [done|]. apply Hread.
Qed.

Lemma Get_committed_replies_value_witness :
  ∃ h1 w,
    Get_start Sample.leader_at_5 Sample.kv3 Sample.no_chans
      (mkGetArgs "a" 7 4) (mkGetReply "" "") = (h1, mkGetReply "" "", Some w)
    ∧ (∃ kv2 h2 h3,
         OperationExecutor_step []
           (Get_register Sample.kv3 (mkGetArgs "a" 7 4) w) h1
           (FromApplyCh (mkApplyMsg false true
              (Some (Get_command Sample.kv3 (mkGetArgs "a" 7 4) (wClientCh w))) 5))
         = Done (kv2, h2)
         ∧ pendingRequests kv2 !! 5 = None
         ∧ Get_select h2 w (mkGetReply "" "") false CaseClientCh
           = Some (h3, {| grErr := OK; grValue := "12" |}))
    ∧ (∃ kv2 h2 h3,
         OperationExecutor_step [] Sample.kv3 h1
           (FromApplyCh (mkApplyMsg false true
              (Some (Get_command Sample.kv3 (mkGetArgs "a" 7 4) (wClientCh w))) 5))
         = Done (kv2, h2)
         ∧ is_Some (pendingRequests (Get_register kv2 (mkGetArgs "a" 7 4) w) !! 5)
         ∧ Get_select h2 w (mkGetReply "" "") false CaseClientCh
           = Some (h3, {| grErr := OK; grValue := "12" |})).
Proof.
  destruct (Get_committed_replies_value Sample.leader_at_5 Sample.kv3
              Sample.no_chans (mkGetArgs "a" 7 4) (mkGetReply "" "") 5 1 eq_refl)
    as (h1 & w & Hstart & Hidx & Hf & Hc & HA & HB).
  exists h1, w. split; [exact Hstart|]. split.
  - destruct (HA [] (Get_register Sample.kv3 (mkGetArgs "a" 7 4) w) h1 false
                eq_refl)
      as (kv2 & h2 & h3 & Hrun & Hpend & _ & _ & Hsel & _ & Hval);
      [|exact Hf|exact Hc|].
    { unfold Get_register, RecordRequestAtIndex. simpl. rewrite Hidx.
      apply lookup_insert_eq. }
    exists kv2, h2, h3. split; [exact Hrun|]. split.
    + rewrite Hpend. apply lookup_delete_eq.
    + rewrite Hsel. rewrite (proj1 (Hval eq_refl)). reflexivity.
  - destruct (HB [] Sample.kv3 h1 false eq_refl eq_refl Hf Hc)
      as (kv2 & h2 & h3 & Hrun & _ & Hreg & _ & _ & Hsel & _ & Hval).
    exists kv2, h2, h3. split; [exact Hrun|]. split.
    + rewrite Hreg. eauto.
    + rewrite Hsel. rewrite (proj1 (Hval eq_refl)). reflexivity.
Defined.

(** X9. A Put or Append accepted by a leader at [index] whose own command
    commits at [index], in either order of its registration and the commit,
    nothing being queued on its two channels before. Registered when the
    commit is handled: the applier's iteration sends no failure signal and
    removes the registration. Commit handled before it registers, nothing
    being registered at [index]: the iteration delivers the result all the
    same, and the registration made afterwards stays in the registry, a
    later commit at another index does not remove it. In both orders the
    handler's [select] then has the failure case not ready and the
    completion case ready, replying OK; the timer case is not ready before
    the timer expires; and when the command had not been applied before,
    the iteration has written the store (Put replaces the value of the
    key, Append extends it). *)
Theorem PutAppend_committed_replies_OK (start : StartFn) (kv : KVServer) (h : Chans)
    (args : PutAppendArgs) (reply : PutAppendReply) (index term : Z) :
  start (PutAppend_command kv args (fresh (dom (clientBufs h)))) = (index, term, true) →
  ∃ h1 w,
    PutAppend_start start kv h args reply = (h1, reply, Some w)
    ∧ wIndex w = index
    ∧ failBufs h1 !! wFailCh w = Some []
    ∧ clientBufs h1 !! wClientCh w = Some []
    ∧ (∀ order kvc hc expired,
         me kvc = me kv →
         pendingRequests kvc !! index
         = Some {| requestId := mkRequestId (paClientId args) (paSeqNumber args);
                   failCh := wFailCh w |} →
         failBufs hc !! wFailCh w = Some [] →
         clientBufs hc !! wClientCh w = Some [] →
         ∃ kv2 h2 h3,
           OperationExecutor_step order kvc hc
             (FromApplyCh (mkApplyMsg false true
                             (Some (PutAppend_command kv args (wClientCh w))) index))
           = Done (kv2, h2)
           ∧ pendingRequests kv2 = delete index (pendingRequests kvc)
           ∧ failBufs h2 = failBufs hc
           ∧ PutAppend_select h2 w reply expired CaseFailCh = None
           ∧ PutAppend_select h2 w reply expired CaseClientCh
             = Some (h3, {| prErr := OK |})
           ∧ PutAppend_select h2 w reply false CaseTimeAfter = None
           ∧ (already_applied kvc (PutAppend_command kv args (wClientCh w)) = false →
              (paOp args = PutOp →
               state kv2 = <[paKey args := paValue args]> (state kvc))
              ∧ (paOp args = AppendOp →
                 state kv2
                 = <[paKey args :=
                       default "" (state kvc !! paKey args) +:+ paValue args]>
                     (state kvc))))
    ∧ (∀ order kvc hc expired,
         me kvc = me kv →
         pendingRequests kvc !! index = None →
         failBufs hc !! wFailCh w = Some [] →
         clientBufs hc !! wClientCh w = Some [] →
         ∃ kv2 h2 h3,
           OperationExecutor_step order kvc hc
             (FromApplyCh (mkApplyMsg false true
                             (Some (PutAppend_command kv args (wClientCh w))) index))
           = Done (kv2, h2)
           ∧ failBufs h2 = failBufs hc
           ∧ pendingRequests (PutAppend_register kv2 args w) !! index
             = Some {| requestId := mkRequestId (paClientId args) (paSeqNumber args);
                       failCh := wFailCh w |}
           ∧ (∀ order' cmd' kv3 h3',
                TermChanged cmd' = false → CommandValid cmd' = true →
                CommandIndex cmd' ≠ index →
                OperationExecutor_step order' (PutAppend_register kv2 args w) h2
                  (FromApplyCh cmd') = Done (kv3, h3') →
                pendingRequests kv3 !! index
                = Some {| requestId :=
                            mkRequestId (paClientId args) (paSeqNumber args);
                          failCh := wFailCh w |})
           ∧ PutAppend_select h2 w reply expired CaseFailCh = None
           ∧ PutAppend_select h2 w reply expired CaseClientCh
             = Some (h3, {| prErr := OK |})
           ∧ PutAppend_select h2 w reply false CaseTimeAfter = None
           ∧ (already_applied kvc (PutAppend_command kv args (wClientCh w)) = false →
              (paOp args = PutOp →
               state kv2 = <[paKey args := paValue args]> (state kvc))
              ∧ (paOp args = AppendOp →
                 state kv2
                 = <[paKey args :=
                       default "" (state kvc !! paKey args) +:+ paValue args]>
                     (state kvc)))).
Proof.
  intros Hstart. rewrite (PutAppend_start_eq _ _ _ _ _ _ _ _ Hstart).
  eexists _, _. split; [reflexivity|].
  cbn [wFailCh wClientCh wIndex failBufs clientBufs].
  split; [done|]. split; [apply lookup_insert_eq|]. split; [apply lookup_insert_eq|].
  set (c := fresh (dom (clientBufs h))). set (f := fresh (dom (failBufs h))).
  set (op := PutAppend_command kv args c).
  assert (∀ kvc, already_applied kvc op = false →
            (paOp args = PutOp →
             state (ApplyOperation kvc op).1
             = <[paKey args := paValue args]> (state kvc))
            ∧ (paOp args = AppendOp →
               state (ApplyOperation kvc op).1
               = <[paKey args :=
                     default "" (state kvc !! paKey args) +:+ paValue args]>
                   (state kvc))) as Hwrite.
  { intros kvc Hnew. rewrite ApplyOperation_fresh by done. split; intros Hk.
    - by rewrite apply_to_store_put.
    - by rewrite apply_to_store_append. }
  split.
  - intros order kvc hc expired Hme Hreg Hf Hc.
    rewrite (commit_of_own_command order kvc hc op index f c);
      [|by rewrite Hme|done|done|by right].
    eexists _, _, _. split; [reflexivity|]. simpl.
    split; [done|]. split; [done|].
    unfold PutAppend_select, chan_recv. simpl. rewrite Hf, lookup_insert_eq. simpl.
    split; [done|]. split; [reflexivity|]. split; [done|]. apply Hwrite.
  - intros order kvc hc expired Hme Hreg Hf Hc.
    rewrite (commit_of_own_command order kvc hc op index f c);
      [|by rewrite Hme|done|done|by left].
    eexists _, _, _. split; [reflexivity|]. simpl.
    split; [done|]. split; [apply lookup_insert_eq|]. split.
    + intros order' cmd' kv3 h3' Hterm Hvalid Hidx Hrun.
      rewrite (OperationExecutor_step_pending _ _ _ _ _ _ Hterm Hvalid Hrun).
      rewrite lookup_delete_ne by done. apply lookup_insert_eq.
    + unfold PutAppend_select, chan_recv. simpl. rewrite Hf, lookup_insert_eq. simpl.
      split; [done|]. split; [reflexivity|]. split; [done|]. apply Hwrite.
Qed.

Lemma PutAppend_committed_replies_OK_witness :
  ∃ h1 w,
    PutAppend_start Sample.leader_at_5 Sample.kv0 Sample.no_chans
      Sample.put_args (mkPutAppendReply "") = (h1, mkPutAppendReply "", Some w)
    ∧ (∃ kv2 h2 h3,
         OperationExecutor_step []
           (PutAppend_register Sample.kv0 Sample.put_args w) h1
           (FromApplyCh (mkApplyMsg false true
              (Some (PutAppend_command Sample.kv0 Sample.put_args (wClientCh w))) 5))
         = Done (kv2, h2)
         ∧ pendingRequests kv2 !! 5 = None
         ∧ state kv2 = <[ "a" := "1" ]> (state Sample.kv0)
         ∧ PutAppend_select h2 w (mkPutAppendReply "") false CaseClientCh
           = Some (h3, {| prErr := OK |}))
    ∧ (∃ kv2 h2 h3,
         OperationExecutor_step [] Sample.kv0 h1
           (FromApplyCh (mkApplyMsg false true
              (Some (PutAppend_command Sample.kv0 Sample.put_args (wClientCh w))) 5))
         = Done (kv2, h2)
         ∧ is_Some (pendingRequests (PutAppend_register kv2 Sample.put_args w) !! 5)
         ∧ PutAppend_select h2 w (mkPutAppendReply "") false CaseClientCh
           = Some (h3, {| prErr := OK |})).
Proof.
  destruct (PutAppend_committed_replies_OK Sample.leader_at_5 Sample.kv0
              Sample.no_chans Sample.put_args (mkPutAppendReply "") 5 1 eq_refl)
    as (h1 & w & Hstart & Hidx & Hf & Hc & HA & HB).
  exists h1, w. split; [exact Hstart|]. split.
  - destruct (HA [] (PutAppend_register Sample.kv0 Sample.put_args w) h1 false
                eq_refl)
      as (kv2 & h2 & h3 & Hrun & Hpend & _ & _ & Hsel & _ & Hval);
      [|exact Hf|exact Hc|].
    { unfold PutAppend_register, RecordRequestAtIndex. simpl. rewrite Hidx.
      apply lookup_insert_eq. }
    exists kv2, h2, h3. split; [exact Hrun|]. split.
    + rewrite Hpend. apply lookup_delete_eq.
    + split; [exact (proj1 (Hval eq_refl) eq_refl) | exact Hsel].
  - destruct (HB [] Sample.kv0 h1 false eq_refl eq_refl Hf Hc)
      as (kv2 & h2 & h3 & Hrun & _ & Hreg & _ & _ & Hsel & _).
    exists kv2, h2, h3. split; [exact Hrun|]. split.
    + rewrite Hreg. eauto.
    + exact Hsel.
Defined.

(** X10. A Get accepted by a leader at [index], and the commit at [index]
    of a command with another RequestId, nothing being queued on the
    handler's two channels before. Registered when the commit is handled:
    the conflict check sends on the handler's failure channel and removes
    the registration, and the handler's [select] then has the completion
    case not ready and the failure case ready, replying ErrLostLeadership
    with the value field as it came. Commit handled before the handler
    registers, nothing being registered at [index]: the conflict check
    sends nothing and changes no channel, the registration is made
    afterwards, and the handler's [select] has neither the failure nor the
    completion case ready; the timer case, once the timer has expired,
    replies ErrTimeOut. *)
Theorem conflicting_commit_fails_Get (start : StartFn) (kv : KVServer) (h : Chans)
    (args : GetArgs) (reply : GetReply) (index term : Z) :
  start (Get_command kv args (fresh (dom (clientBufs h)))) = (index, term, true) →
  ∃ h1 w,
    Get_start start kv h args reply = (h1, reply, Some w)
    ∧ wIndex w = index
    ∧ failBufs h1 !! wFailCh w = Some []
    ∧ clientBufs h1 !! wClientCh w = Some []
    ∧ (∀ kvc hc other expired,
         pendingRequests kvc !! index
         = Some {| requestId := mkRequestId (gaClientId args) (gaSeqNumber args);
                   failCh := wFailCh w |} →
         failBufs hc !! wFailCh w = Some [] →
         clientBufs hc !! wClientCh w = Some [] →
         Op_RequestId other ≠ mkRequestId (gaClientId args) (gaSeqNumber args) →
         ∃ kv2 h2 h3,
           FailConflictPendingRequests kvc hc
             (mkApplyMsg false true (Some other) index) = Done (kv2, h2)
           ∧ pendingRequests kv2 = delete index (pendingRequests kvc)
           ∧ clientBufs h2 = clientBufs hc
           ∧ Get_select h2 w reply expired CaseClientCh = None
           ∧ Get_select h2 w reply expired CaseFailCh
             = Some (h3, {| grErr := ErrLostLeadership; grValue := grValue reply |}))
    ∧ (∀ kvc hc other expired,
         pendingRequests kvc !! index = None →
         failBufs hc !! wFailCh w = Some [] →
         clientBufs hc !! wClientCh w = Some [] →
         ∃ kv2,
           FailConflictPendingRequests kvc hc
             (mkApplyMsg false true (Some other) index) = Done (kv2, hc)
           ∧ pendingRequests (Get_register kv2 args w) !! index
             = Some {| requestId := mkRequestId (gaClientId args) (gaSeqNumber args);
                       failCh := wFailCh w |}
           ∧ Get_select hc w reply expired CaseFailCh = None
           ∧ Get_select hc w reply expired CaseClientCh = None
           ∧ Get_select hc w reply true CaseTimeAfter
             = Some (hc, {| grErr := ErrTimeOut; grValue := grValue reply |})).
Proof.
  intros Hstart. rewrite (Get_start_eq _ _ _ _ _ _ _ _ Hstart).
  eexists _, _. split; [reflexivity|].
  cbn [wFailCh wClientCh wIndex failBufs clientBufs].
  split; [done|]. split; [apply lookup_insert_eq|]. split; [apply lookup_insert_eq|].
  split.
  - intros kvc hc other expired Hreg Hf Hc Hother.
    unfold FailConflictPendingRequests. simpl. rewrite Hreg. simpl.
    rewrite decide_True by (intros Heq; by apply Hother).
    rewrite chan_send_room by done. simpl.
    eexists _, _, _. split; [reflexivity|]. simpl.
    split; [done|]. split; [done|].
    unfold Get_select, chan_recv. simpl. rewrite Hc, lookup_insert_eq. simpl.
    split; reflexivity.
  - intros kvc hc other expired Hreg Hf Hc.
    unfold FailConflictPendingRequests. simpl. rewrite Hreg. simpl.
    eexists. split; [reflexivity|]. simpl.
    split; [apply lookup_insert_eq|].
    unfold Get_select, chan_recv. simpl. rewrite Hf, Hc. done.
Qed.

Lemma conflicting_commit_fails_Get_witness :
  ∃ h1 w,
    Get_start Sample.leader_at_5 Sample.kv0 Sample.no_chans Sample.get_args
      (mkGetReply "" "") = (h1, mkGetReply "" "", Some w)
    ∧ (∃ kv2 h2 h3,
         FailConflictPendingRequests (Get_register Sample.kv0 Sample.get_args w) h1
           (mkApplyMsg false true (Some Sample.put1) 5) = Done (kv2, h2)
         ∧ Get_select h2 w (mkGetReply "" "") false CaseFailCh
           = Some (h3, {| grErr := ErrLostLeadership; grValue := "" |}))
    ∧ (∃ kv2,
         FailConflictPendingRequests Sample.kv0 h1
           (mkApplyMsg false true (Some Sample.put1) 5) = Done (kv2, h1)
         ∧ Get_select h1 w (mkGetReply "" "") false CaseFailCh = None).
Proof.
  destruct (conflicting_commit_fails_Get Sample.leader_at_5 Sample.kv0
              Sample.no_chans Sample.get_args (mkGetReply "" "") 5 1 eq_refl)
    as (h1 & w & Hstart & Hidx & Hf & Hc & HA & HB).
  exists h1, w. split; [exact Hstart|]. split.
  - destruct (HA (Get_register Sample.kv0 Sample.get_args w) h1 Sample.put1 false)
      as (kv2 & h2 & h3 & Hrun & _ & _ & _ & Hsel);
      [|exact Hf|exact Hc|discriminate|].
    { unfold Get_register, RecordRequestAtIndex. simpl. rewrite Hidx.
      apply lookup_insert_eq. }
    exists kv2, h2, h3. split; [exact Hrun | exact Hsel].
  - destruct (HB Sample.kv0 h1 Sample.put1 false eq_refl Hf Hc)
      as (kv2 & Hrun & _ & Hsel & _).
    exists kv2. split; [exact Hrun | exact Hsel].
Defined.



(** ** Retries at the RPC layer *)

(** X12. Once [ApplyOperation] has run on a command, whether it applied it
    or found it a duplicate, a retry of the RPC under the command's
    RequestId is answered from the tables: [Get] replies OK with the very
    string [ApplyOperation] returned, [PutAppend] replies OK; neither calls
    [Start], makes a channel or registers, whatever key or value the retry
    names. *)
Theorem retry_is_answered_from_cache (kv : KVServer) (op : Op) :
  (∀ (start : StartFn) h key reply,
     Get_submit start (ApplyOperation kv op).1 h
       (mkGetArgs key (ClientId op) (SeqNumber op)) reply
     = ((ApplyOperation kv op).1, h,
        {| grErr := OK; grValue := (ApplyOperation kv op).2 |}, None))
  ∧ (∀ (start : StartFn) h key value name reply,
       PutAppend_submit start (ApplyOperation kv op).1 h
         (mkPutAppendArgs key value name (ClientId op) (SeqNumber op)) reply
       = ((ApplyOperation kv op).1, h, {| prErr := OK |}, None)).
Proof.
  pose proof (ApplyOperation_records kv op) as Hrec.
  pose proof (ApplyOperation_caches kv op) as Hcache.
  split.
  - intros start h key reply. rewrite Get_submit_eq. unfold ShouldStartCommand. simpl.
    rewrite Hrec, decide_True by done. simpl. by rewrite Hcache.
  - intros start h key value name reply.
    rewrite PutAppend_submit_eq. unfold ShouldStartCommand. simpl.
    by rewrite Hrec, decide_True.
Qed.

Lemma retry_is_answered_from_cache_witness :
  Get_submit Sample.leader_at_5 Sample.kv3 Sample.no_chans
    (mkGetArgs "other" 7 3) (mkGetReply "" "")
  = (Sample.kv3, Sample.no_chans, {| grErr := OK; grValue := "12" |}, None).
Proof.
  exact (proj1 (retry_is_answered_from_cache
                  (apply_run Sample.kv0 [Sample.put1; Sample.app2]) Sample.get3)
           Sample.leader_at_5 Sample.no_chans "other" (mkGetReply "" "")).
Defined.

(** X13. After [ApplyOperation] has run on a command of a client, an RPC of
    that client with a smaller sequence number is turned away: the reply
    is ErrStaleRequest, a Get's value field is left as it came, and nothing
    is submitted, made or registered. *)
Theorem stale_rpc_is_rejected (kv : KVServer) (op : Op) (n : Z) :
  n < SeqNumber op →
  (∀ (start : StartFn) h key reply,
     Get_submit start (ApplyOperation kv op).1 h
       (mkGetArgs key (ClientId op) n) reply
     = ((ApplyOperation kv op).1, h,
        {| grErr := ErrStaleRequest; grValue := grValue reply |}, None))
  ∧ (∀ (start : StartFn) h key value name reply,
       PutAppend_submit start (ApplyOperation kv op).1 h
         (mkPutAppendArgs key value name (ClientId op) n) reply
       = ((ApplyOperation kv op).1, h, {| prErr := ErrStaleRequest |}, None)).
Proof.
  intros Hn. pose proof (ApplyOperation_records kv op) as Hrec. split.
  - intros start h key reply. rewrite Get_submit_eq. unfold ShouldStartCommand. simpl.
    rewrite Hrec, decide_False, decide_True by lia. done.
  - intros start h key value name reply.
    rewrite PutAppend_submit_eq. unfold ShouldStartCommand. simpl.
    rewrite Hrec, decide_False, decide_True by lia. done.
Qed.

Lemma stale_rpc_is_rejected_witness :
  2 < SeqNumber Sample.get3
  ∧ PutAppend_submit Sample.leader_at_5 Sample.kv3 Sample.no_chans
      (mkPutAppendArgs "a" "z" PutOp 7 2) (mkPutAppendReply "")
    = (Sample.kv3, Sample.no_chans, {| prErr := ErrStaleRequest |}, None).
Proof.
  split; [simpl; lia|].
  refine (proj2 (stale_rpc_is_rejected
                   (apply_run Sample.kv0 [Sample.put1; Sample.app2]) Sample.get3 2 _)
            Sample.leader_at_5 Sample.no_chans "a" "z" PutOp (mkPutAppendReply "")).
  simpl; lia.
Defined.

(** ** Shutdown *)

Lemma receives_cons m ms :
  receives (m :: ms) = ((if is_receive m then 1 else 0) + receives ms)%nat.
Proof.
  unfold receives. rewrite filter_cons.
  destruct (is_receive m);
    [rewrite decide_True by done | rewrite decide_False by done]; done.
Qed.

Lemma do_move_dead s m s' :
  dead (life s) = 1 → do_move s m = Some s' → dead (life s') = 1.
Proof.
  intros Hdead. destruct m as [|order ev| |]; simpl.
  - destruct (pc s); try done. by intros [= <-].
  - destruct (pc s); try done. destruct ev as [cmd|b].
    + destruct (OperationExecutor_step order (ekv s) (echans s) (FromApplyCh cmd))
        as [[kv' h']| |]; try done. by intros [= <-].
    + destruct (killCh (life s)) as [|b' rest]; [done|].
      case_decide; [|done]. by intros [= <-].
  - by intros [= <-].
  - case_decide; [|done]. unfold Kill_send. case_decide; [|done]. by intros [= <-].
Qed.

(** X14. Once [Kill] has stored the flag, the loop of [OperationExecutor]
    makes at most one more receive, whatever the moves that follow and
    however many messages wait: none at all unless the goroutine was
    already waiting in its [select] (then that one receive, after which the
    test ends the loop), and without a receive the server and the channels
    stay as they were. The flag is never taken back. *)
Theorem after_Kill_at_most_one_receive (s s' : Executor) (ms : list move) :
  dead (life s) = 1 →
  do_moves s ms = Some s' →
  dead (life s') = 1
  ∧ (receives ms ≤ 1)%nat
  ∧ (pc s ≠ AtSelect → receives ms = 0%nat ∧ ekv s' = ekv s ∧ echans s' = echans s)
  ∧ (receives ms = 0%nat → ekv s' = ekv s ∧ echans s' = echans s).
Proof.
  revert s s'.
  induction ms as [|m rest IH]; intros s s' Hdead Hrun; simpl in Hrun.
  - injection Hrun as <-. unfold receives. simpl.
    split; [done|]. split; [lia|]. split; done.
  - destruct (do_move s m) as [s1|] eqn:Hm; [|done].
    pose proof (do_move_dead s m s1 Hdead Hm) as Hdead1.
    destruct (IH s1 s' Hdead1 Hrun) as (Hd & Hle & Hnone & Hsame).
    rewrite receives_cons. split; [done|].
    destruct m as [|order ev| |]; simpl in Hm |- *.
    + destruct (pc s) eqn:Hpc; try done. injection Hm as <-.
      unfold killed in *. rewrite bool_decide_eq_true_2 in * by done.
      simpl in *. destruct Hnone as (H0 & Hkv & Hh); [done|].
      rewrite H0. split; [lia|]. split; [done|]. done.
    + destruct (pc s) eqn:Hpc; try done.
      assert (pc s1 = AtLoopHead ∧ life s1 = life s ∨ pc s1 = AtLoopHead) as Hpc1.
      { destruct ev as [cmd|b].
        - destruct (OperationExecutor_step order (ekv s) (echans s) (FromApplyCh cmd))
            as [[kv' h']| |]; try done. injection Hm as <-. by left.
        - destruct (killCh (life s)) as [|b' queued]; [done|].
          case_decide; [|done]. injection Hm as <-. by right. }
      assert (pc s1 = AtLoopHead) as Hhead by (destruct Hpc1 as [[? _]|?]; done).
      destruct Hnone as (H0 & _ & _); [by rewrite Hhead|].
      rewrite H0. split; [lia|]. split; [done|]. intros; lia.
    + injection Hm as <-. simpl in *. split; [lia|]. split; [done|]. done.
    + case_decide; [|done]. unfold Kill_send in Hm. case_decide; [|done].
      injection Hm as <-. simpl in *. split; [lia|]. split; [done|]. done.
Qed.


Lemma after_Kill_at_most_one_receive_witness :
  dead (mkLifecycle 1 []) = 1
  ∧ do_moves (mkExecutor AtSelect (StartKVServer 0) (mkChans ∅ ∅) (mkLifecycle 1 []))
      [KillSends; Receive [] (FromKillCh true); CheckKilled]
    = Some (mkExecutor Exited (StartKVServer 0) (mkChans ∅ ∅) (mkLifecycle 1 []))
  ∧ (receives [KillSends; Receive [] (FromKillCh true); CheckKilled] ≤ 1)%nat.
Proof.
  split; [reflexivity|]. split; [reflexivity|].
  exact (proj1 (proj2 (after_Kill_at_most_one_receive
                         (mkExecutor AtSelect (StartKVServer 0) (mkChans ∅ ∅)
                            (mkLifecycle 1 []))
                         _ [KillSends; Receive [] (FromKillCh true); CheckKilled]
                         eq_refl eq_refl))).
Defined.

Lemma do_move_shutdown_inv s m s' :
  shutdown_inv s → do_move s m = Some s' → shutdown_inv s'.
Proof.
  intros (Htrue & Hlen & Hne & Hflag & Hexit).
  unfold shutdown_inv. destruct m as [|order ev| |]; simpl.
  - destruct (pc s); try done. intros [= <-]. simpl.
    do 4 (split; [done|]). unfold killed. case_bool_decide; done.
  - destruct (pc s); try done. destruct ev as [cmd|b].
    + destruct (OperationExecutor_step order (ekv s) (echans s) (FromApplyCh cmd))
        as [[kv' h']| |]; try done. by intros [= <-].
    + destruct (killCh (life s)) as [|b' queued] eqn:Hq; [done|].
      case_decide; [|done]. intros [= <-]. simpl.
      apply Forall_cons in Htrue as [_ Htrue]. simpl in Hlen.
      split; [done|]. split; [lia|]. split; [intros _; by apply Hne|].
      split; [done|]. done.
  - intros [= <-]. simpl. do 2 (split; [done|]). split; [done|].
    split; [by right|done].
  - case_decide as Hd; [|done]. unfold Kill_send. case_decide as Hroom; [|done].
    intros [= <-]. simpl. split.
    + apply Forall_app. split; [done|]. by constructor.
    + rewrite length_app. simpl. unfold killCh_cap in *.
      split; [lia|]. split; [done|]. split; [by right|done].
Qed.

(** X15. In every state the loop of [OperationExecutor] and the calls of
    [Kill] lead to from a new server: [dead] is 0 or 1; [killCh] holds at
    most ten values, all [true], and holds one only when [dead] is set; the
    loop is left only when [dead] is set. So a receive from [killCh]
    always yields [true], and the test that follows it ends the loop. *)
Theorem shutdown_invariants (me0 : Z) (ms : list move) (s : Executor) :
  do_moves (new_Executor me0) ms = Some s →
  Forall (λ b, b = true) (killCh (life s))
  ∧ (length (killCh (life s)) ≤ 10)%nat
  ∧ (killCh (life s) ≠ [] → dead (life s) = 1)
  ∧ (dead (life s) = 0 ∨ dead (life s) = 1)
  ∧ (pc s = Exited → dead (life s) = 1)
  ∧ (∀ order b s1,
       do_move s (Receive order (FromKillCh b)) = Some s1 →
       b = true
       ∧ do_move s1 CheckKilled
         = Some {| pc := Exited; ekv := ekv s; echans := echans s; life := life s1 |}).
Proof.
  intros Hrun.
  assert (shutdown_inv s) as Hinv.
  { assert (shutdown_inv (new_Executor me0)) as Hnew.
    { unfold shutdown_inv, killCh_cap. simpl.
      split; [constructor|]. split; [lia|]. split; [done|]. split; [by left|done]. }
    revert Hnew Hrun. generalize (new_Executor me0). clear.
    induction ms as [|m rest IH]; intros s0 Hinv Hrun; simpl in Hrun.
    - by injection Hrun as <-.
    - destruct (do_move s0 m) as [s1|] eqn:Hm; [|done].
      eapply IH; [|exact Hrun]. by eapply do_move_shutdown_inv. }
  destruct Hinv as (Htrue & Hlen & Hne & Hflag & Hexit).
  do 5 (split; [done|]).
  intros order b s1. simpl.
  destruct (pc s); try done.
  destruct (killCh (life s)) as [|b' queued] eqn:Hq; [done|].
  case_decide as Hb; [|done]. intros [= <-]. simpl.
  apply Forall_cons in Htrue as [Hb' _]. split; [congruence|].
  unfold killed. simpl. rewrite bool_decide_eq_true_2; [done|]. by apply Hne.
Qed.

Lemma shutdown_invariants_witness :
  do_moves (new_Executor 0)
    [CheckKilled; KillStores; KillSends; KillStores; KillSends]
  = Some (mkExecutor AtSelect (StartKVServer 0) (mkChans ∅ ∅)
            (mkLifecycle 1 [true; true]))
  ∧ ∀ order b s1,
      do_move (mkExecutor AtSelect (StartKVServer 0) (mkChans ∅ ∅)
                 (mkLifecycle 1 [true; true]))
        (Receive order (FromKillCh b)) = Some s1 →
      b = true.
Proof.
  split; [reflexivity|].
  intros order b s1 Hrecv.
  exact (proj1 (proj2 (proj2 (proj2 (proj2 (proj2
           (shutdown_invariants 0
              [CheckKilled; KillStores; KillSends; KillStores; KillSends]
              _ eq_refl))))) order b s1 Hrecv)).
Defined.

(** ** The registry condition with the handlers' moves taken apart *)

Lemma accepted_ok_start kv h fl id index cch :
  registry_ok kv h → accepted_ok kv h fl →
  accepted_ok kv
    {| failBufs := <[fresh (dom (failBufs h)) := []]> (failBufs h);
       clientBufs := cch |}
    (fl ++ [(id, {| wIndex := index; wFailCh := fresh (dom (failBufs h));
                    wClientCh := fresh (dom (clientBufs h)) |})])%list.
Proof.
  intros Hok [Hall Hnd]. split.
  - apply Forall_app. split.
    + eapply Forall_impl; [exact Hall|]. simpl. intros e [Hroom Hreg].
      split; [|done]. rewrite lookup_insert_ne; [done|]. by eapply fresh_not_live.
    + constructor; [|constructor]. simpl. split; [apply lookup_insert_eq|].
      intros i x Hi. by eapply registry_wf_fresh.
  - rewrite fmap_app. apply NoDup_app. split; [done|]. split.
    + intros f Hf [->|Hin%elem_of_nil]%elem_of_cons; [|done].
      apply list_elem_of_fmap in Hf as (e & Heq & He).
      rewrite Forall_forall in Hall. destruct (Hall e He) as [Hroom _].
      simpl in Heq. rewrite <- Heq in Hroom.
      by eapply (fresh_not_live (failBufs h)).
    + simpl. apply NoDup_singleton.
Qed.

Lemma accepted_ok_alloc kv h fl cch :
  accepted_ok kv h fl →
  accepted_ok kv
    {| failBufs := <[fresh (dom (failBufs h)) := []]> (failBufs h);
       clientBufs := cch |} fl.
Proof.
  intros [Hall Hnd]. split; [|done].
  eapply Forall_impl; [exact Hall|]. simpl. intros e [Hroom Hreg].
  split; [|done]. rewrite lookup_insert_ne; [done|]. by eapply fresh_not_live.
Qed.

Lemma handler_step_ok kv h fl kv' h' fl' :
  handler_step (kv, h, fl) (kv', h', fl') →
  registry_ok kv h → accepted_ok kv h fl →
  registry_ok kv' h' ∧ accepted_ok kv' h' fl'.
Proof.
  intros Hstep. inversion Hstep as
    [order kv0 h0 fl0 ev kv1 h1 Hperm Hrun
    |start kv0 h0 fl0 args reply h1 reply1 ow Hrun
    |start kv0 h0 fl0 args reply h1 reply1 ow Hrun
    |kv0 h0 fl1 id w fl2
    |kv0 h0 fl0 w reply expired c h1 reply1 Hrun
    |kv0 h0 fl0 w reply expired c h1 reply1 Hrun]; subst;
    intros Hok Hacc.
  - split; [by eapply OperationExecutor_step_registry_ok|].
    destruct Hacc as [Hall Hnd]. split; [|done].
    eapply Forall_impl; [exact Hall|]. simpl. intros e [Hroom Hreg].
    by eapply OperationExecutor_step_silent.
  - unfold Get_start in Hrun. simpl in Hrun.
    destruct (start _) as [[index term] []]; injection Hrun as <- _ <-; simpl.
    + split; [by apply registry_wf_alloc | by apply accepted_ok_start].
    + rewrite app_nil_r.
      split; [by apply registry_wf_alloc | by apply accepted_ok_alloc].
  - unfold PutAppend_start in Hrun. simpl in Hrun.
    destruct (start _) as [[index term] []]; injection Hrun as <- _ <-; simpl.
    + split; [by apply registry_wf_alloc | by apply accepted_ok_start].
    + rewrite app_nil_r.
      split; [by apply registry_wf_alloc | by apply accepted_ok_alloc].
  - destruct Hacc as [Hall Hnd].
    apply Forall_app in Hall as [Hall1 Hall2].
    apply Forall_cons in Hall2 as [[Hroom Hreg] Hall2]. simpl in Hroom, Hreg.
    rewrite fmap_app, fmap_cons in Hnd. simpl in Hnd.
    apply NoDup_app in Hnd as (Hnd1 & Hdisj & Hnd2).
    apply NoDup_cons in Hnd2 as [Hnotin Hnd2].
    split.
    + unfold registry_ok, RecordRequestAtIndex. simpl.
      apply registry_wf_insert; [done|done|]. simpl. intros j y Hj. by eapply Hreg.
    + split.
      * apply Forall_app. split.
        -- rewrite Forall_forall in Hall1 |- *. intros e He.
           destruct (Hall1 e He) as [Hr Hg]. split; [done|].
           unfold RecordRequestAtIndex. simpl.
           intros i x [[_ <-]|[_ Hi]]%lookup_insert_Some; [|by eapply Hg].
           simpl. intros Heq. apply (Hdisj (wFailCh e.2)).
           ++ apply list_elem_of_fmap. by exists e.
           ++ rewrite <- Heq. left.
        -- rewrite Forall_forall in Hall2 |- *. intros e He.
           destruct (Hall2 e He) as [Hr Hg]. split; [done|].
           unfold RecordRequestAtIndex. simpl.
           intros i x [[_ <-]|[_ Hi]]%lookup_insert_Some; [|by eapply Hg].
           simpl. intros Heq. apply Hnotin. rewrite Heq.
           apply list_elem_of_fmap. by exists e.
      * rewrite fmap_app. apply NoDup_app. split; [done|]. split; [|done].
        intros f Hf Hf2. apply (Hdisj f Hf). by right.
  - split; [by eapply Get_select_registry_ok|].
    destruct Hacc as [Hall Hnd]. split; [|done].
    eapply Forall_impl; [exact Hall|]. simpl. intros e [Hroom Hreg].
    split; [|done]. unfold Get_select in Hrun. destruct c.
    + destruct (chan_recv (failBufs h) (wFailCh w)) as [[v bufs]|] eqn:Hr; [|done].
      injection Hrun as <- _. simpl. by eapply chan_recv_empty_other.
    + destruct (chan_recv (clientBufs h) (wClientCh w)) as [[v bufs]|]; [|done].
      by injection Hrun as <- _.
    + destruct expired; [|done]. by injection Hrun as <- _.
  - split; [by eapply PutAppend_select_registry_ok|].
    destruct Hacc as [Hall Hnd]. split; [|done].
    eapply Forall_impl; [exact Hall|]. simpl. intros e [Hroom Hreg].
    split; [|done]. unfold PutAppend_select in Hrun. destruct c.
    + destruct (chan_recv (failBufs h) (wFailCh w)) as [[v bufs]|] eqn:Hr; [|done].
      injection Hrun as <- _. simpl. by eapply chan_recv_empty_other.
    + destruct (chan_recv (clientBufs h) (wClientCh w)) as [[v bufs]|]; [|done].
      by injection Hrun as <- _.
    + destruct expired; [|done]. by injection Hrun as <- _.
Qed.

(** With [Start] and the registration as moves of their own, every state
    the server gets to from [StartKVServer] still has its registered
    failure channels free. *)
Lemma handler_steps_registry_ok me0 kv h fl :
  rtc handler_step (StartKVServer me0, mkChans ∅ ∅, []) (kv, h, fl) →
  registry_ok kv h ∧ accepted_ok kv h fl.
Proof.
  intros Hreach.
  change (registry_ok (kv, h, fl).1.1 (kv, h, fl).1.2
          ∧ accepted_ok (kv, h, fl).1.1 (kv, h, fl).1.2 (kv, h, fl).2).
  revert Hreach. generalize (kv, h, fl).
  apply (rtc_ind_r (λ s, registry_ok s.1.1 s.1.2 ∧ accepted_ok s.1.1 s.1.2 s.2)).
  - split; [apply registry_wf_empty|]. split; [constructor|]. simpl. apply NoDup_nil_2.
  - intros [[kv1 h1] fl1] [[kv2 h2] fl2] _ Hstep [Hok Hacc]. simpl in *.
    by eapply handler_step_ok.
Qed.

(** A handler running without interruption is two of these moves, or
    one. *)
Lemma Get_submit_as_moves (start : StartFn) kv h args reply kv' h' reply' ow :
  (Get_check kv args reply).1 = true →
  Get_submit start kv h args reply = (kv', h', reply', ow) →
  rtc handler_step (kv, h, []) (kv', h', []).
Proof.
  intros Hpass. unfold Get_submit. rewrite (Get_check_true _ _ _ Hpass). simpl.
  destruct (Get_start start kv h args _) as [[h1 reply1] ow1] eqn:Hs.
  intros [= <- <- _ <-].
  eapply rtc_l.
  { exact (move_Get_start start kv h [] args _ h1 reply1 ow1 Hs). }
  destruct ow1 as [w|]; simpl; [|apply rtc_refl].
  apply rtc_once.
  exact (move_register kv h1 [] _ w []).
Qed.
